(** * Event scrapers of the Lexington event board (server/scrapers.ts)

    A shallow embedding of [scrapeLexingtonFarmersMarket],
    [scrapeChurchEvents], [scrapeYardSalesAndCommunityEvents] and
    [fetchAllEvents], together with the part of the ECMAScript [Date]
    object, [Map] object and [Array.prototype.sort] they rely on.

    Conventions.
    - A time value is a number of milliseconds since the epoch, in UTC.  The
      [[DateValue]] slot of a [Date] object is [option Z]: [None] is NaN,
      the "Invalid Date".
    - Numbers that may be NaN are [option Z] as well.  The numbers the
      scrapers compute are integers below 2^53 in magnitude, on which the
      arithmetic of doubles is exact; the one exception is the difference
      the comparator of the sort returns, of which only the sign is used.
    - The time zone of the host is a parameter, [LocalTZA], as in the
      language specification.
    - An abrupt completion (a thrown exception, a rejected promise) is the
      [Throw] constructor of [Completion]. *)

From Stdlib Require Import ZArith List Bool Lia Ascii String.
From Stdlib Require Import Permutation Sorted.
Import ListNotations.

Open Scope Z_scope.

(** ** Time values: days, years, months (ECMA-262, Date objects) *)

Module ESDate.

Definition msPerSecond : Z := 1000.
Definition msPerMinute : Z := 60000.
Definition msPerHour   : Z := 3600000.
Definition msPerDay    : Z := 86400000.

(** The largest magnitude of a time value: 100,000,000 days. *)
Definition maxTime : Z := 8640000000000000.

Definition Day (t : Z) : Z := t / msPerDay.
Definition TimeWithinDay (t : Z) : Z := t mod msPerDay.

Definition DaysInYear (y : Z) : Z :=
  if negb (y mod 4 =? 0) then 365
  else if negb (y mod 100 =? 0) then 366
  else if negb (y mod 400 =? 0) then 365
  else 366.

Definition DayFromYear (y : Z) : Z :=
  365 * (y - 1970) + (y - 1969) / 4 - (y - 1901) / 100 + (y - 1601) / 400.

Definition TimeFromYear (y : Z) : Z := msPerDay * DayFromYear y.

(** The largest [y] with [TimeFromYear y <= t]: an estimate from the mean
    length of a year, off by one at most, then corrected. *)
Definition YearFromTime (t : Z) : Z :=
  let d := Day t in
  let y := 1970 + (400 * d) / 146097 in
  if d <? DayFromYear y then y - 1
  else if DayFromYear (y + 1) <=? d then y + 1
  else y.

Definition InLeapYearOf (y : Z) : Z :=
  if DaysInYear y =? 366 then 1 else 0.

Definition InLeapYear (t : Z) : Z := InLeapYearOf (YearFromTime t).

Definition DayWithinYear (t : Z) : Z := Day t - DayFromYear (YearFromTime t).

(** Number of days of the year before month [m] (0 = January). *)
Definition monthStart (m leap : Z) : Z :=
  if m =? 0 then 0
  else if m =? 1 then 31
  else if m =? 2 then 59 + leap
  else if m =? 3 then 90 + leap
  else if m =? 4 then 120 + leap
  else if m =? 5 then 151 + leap
  else if m =? 6 then 181 + leap
  else if m =? 7 then 212 + leap
  else if m =? 8 then 243 + leap
  else if m =? 9 then 273 + leap
  else if m =? 10 then 304 + leap
  else 334 + leap.

Definition MonthFromTime (t : Z) : Z :=
  let d := DayWithinYear t in
  let leap := InLeapYear t in
  if d <? 31 then 0
  else if d <? 59 + leap then 1
  else if d <? 90 + leap then 2
  else if d <? 120 + leap then 3
  else if d <? 151 + leap then 4
  else if d <? 181 + leap then 5
  else if d <? 212 + leap then 6
  else if d <? 243 + leap then 7
  else if d <? 273 + leap then 8
  else if d <? 304 + leap then 9
  else if d <? 334 + leap then 10
  else 11.

Definition DateFromTime (t : Z) : Z :=
  let d := DayWithinYear t in
  let leap := InLeapYear t in
  let m := MonthFromTime t in
  if m =? 0 then d + 1
  else if m =? 1 then d - 30
  else if m =? 2 then d - 58 - leap
  else if m =? 3 then d - 89 - leap
  else if m =? 4 then d - 119 - leap
  else if m =? 5 then d - 150 - leap
  else if m =? 6 then d - 180 - leap
  else if m =? 7 then d - 211 - leap
  else if m =? 8 then d - 242 - leap
  else if m =? 9 then d - 272 - leap
  else if m =? 10 then d - 303 - leap
  else d - 333 - leap.

Definition WeekDay (t : Z) : Z := (Day t + 4) mod 7.

Definition HourFromTime (t : Z) : Z := (t / msPerHour) mod 24.
Definition MinFromTime (t : Z) : Z := (t / msPerMinute) mod 60.
Definition SecFromTime (t : Z) : Z := (t / msPerSecond) mod 60.
Definition msFromTime (t : Z) : Z := t mod msPerSecond.

Definition MakeTime (hour min sec ms : Z) : Z :=
  hour * msPerHour + min * msPerMinute + sec * msPerSecond + ms.

(** [MakeDay year month date]: the day number of the first of the month
    [(year + month / 12, month mod 12)], plus [date - 1]. *)
Definition MakeDay (year month date : Z) : Z :=
  let ym := year + month / 12 in
  let mn := month mod 12 in
  DayFromYear ym + monthStart mn (InLeapYearOf ym) + date - 1.

Definition MakeDate (day time : Z) : Z := day * msPerDay + time.

Definition TimeClip (t : Z) : option Z :=
  if Z.abs t >? maxTime then None else Some t.

(** *** The Date Time String Format, as [toISOString] prints it *)

Definition digitChar (d : Z) : ascii := ascii_of_nat (48 + Z.to_nat d).

(** The [w] lowest decimal digits of [n], most significant first: for
    [0 <= n < 10 ^ w] this is [n] in decimal, padded with zeros on the left
    to [w] characters. *)
Fixpoint padDigits (w : nat) (n : Z) : string :=
  match w with
  | O => EmptyString
  | S w' => String (digitChar ((n / 10 ^ Z.of_nat w') mod 10)) (padDigits w' n)
  end.

(** Four digits for the years 0 to 9999, a sign and six digits otherwise. *)
Definition yearString (y : Z) : string :=
  if (0 <=? y) && (y <=? 9999) then padDigits 4 y
  else String.append (if 0 <=? y then "+"%string else "-"%string)
                     (padDigits 6 (Z.abs y)).

Definition ISODateString (t : Z) : string :=
  (yearString (YearFromTime t) ++ "-" ++
   padDigits 2 (MonthFromTime t + 1) ++ "-" ++
   padDigits 2 (DateFromTime t) ++ "T" ++
   padDigits 2 (HourFromTime t) ++ ":" ++
   padDigits 2 (MinFromTime t) ++ ":" ++
   padDigits 2 (SecFromTime t) ++ "." ++
   padDigits 3 (msFromTime t) ++ "Z")%string.

End ESDate.

Import ESDate.

(** ** Numbers with NaN *)

Definition Number := option Z.

Definition num (z : Z) : Number := Some z.

Definition num_lift2 (f : Z -> Z -> Z) (a b : Number) : Number :=
  match a, b with
  | Some x, Some y => Some (f x y)
  | _, _ => None
  end.

Definition num_add : Number -> Number -> Number := num_lift2 Z.add.
Definition num_sub : Number -> Number -> Number := num_lift2 Z.sub.
Definition num_mul : Number -> Number -> Number := num_lift2 Z.mul.

(** [a % b]: the remainder has the sign of the dividend; NaN when [b] is 0. *)
Definition num_rem (a b : Number) : Number :=
  match a, b with
  | Some x, Some y => if y =? 0 then None else Some (Z.rem x y)
  | _, _ => None
  end.

(** [a > b]: false as soon as one side is NaN. *)
Definition num_gt (a b : Number) : bool :=
  match a, b with
  | Some x, Some y => x >? y
  | _, _ => false
  end.

Declare Scope num_scope.
Delimit Scope num_scope with num.
Infix "+" := num_add : num_scope.
Infix "-" := num_sub : num_scope.
Infix "*" := num_mul : num_scope.
Infix "mod" := num_rem : num_scope.
Infix ">?" := num_gt : num_scope.

(** ** Completions: normal results and thrown exceptions *)

Inductive Exception : Type :=
| RangeError (message : string)
| Rejected (reason : string).

Inductive Completion (A : Type) : Type :=
| Normal (a : A)
| Throw (e : Exception).

Arguments Normal {A} a.
Arguments Throw {A} e.

Definition bind {A B} (m : Completion A) (k : A -> Completion B)
  : Completion B :=
  match m with
  | Normal a => k a
  | Throw e => Throw e
  end.

Notation "x <- m ;; k" := (bind m (fun x => k))
  (at level 61, m at next level, right associativity).

(** [try { body } catch (error) { handler }] *)
Definition try_catch {A} (body : Completion A)
    (handler : Exception -> Completion A) : Completion A :=
  match body with
  | Normal a => Normal a
  | Throw e => handler e
  end.

(** [xs.map(f)], where [f] may throw: the first exception ends the loop. *)
Fixpoint Array_map {A B} (f : A -> Completion B) (xs : list A)
  : Completion (list B) :=
  match xs with
  | [] => Normal []
  | x :: xs' =>
      y <- f x ;;
      ys <- Array_map f xs' ;;
      Normal (y :: ys)
  end.

(** ** Date objects in the time zone of the host *)

Definition JSDate := option Z.

(** [new Date()]: the clock is read, the time value is finite. *)
Definition Date_now (clock : Z) : JSDate := Some clock.

(** [new Date(d)] for a Date object [d]. *)
Definition Date_new (d : JSDate) : JSDate :=
  match d with
  | Some tv => TimeClip tv
  | None => None
  end.

Definition Date_getTime (d : JSDate) : Number := d.

Definition Date_toISOString (d : JSDate) : Completion string :=
  match d with
  | Some tv => Normal (ISODateString tv)
  | None => Throw (RangeError "Invalid time value")
  end.

Section HostTimeZone.

(** [LocalTZA t true] is the offset of local time from UTC at the UTC
    instant [t]; [LocalTZA t false] is the offset to use for the local
    time [t]. *)
Variable LocalTZA : Z -> bool -> Z.

Definition LocalTime (t : Z) : Z := t + LocalTZA t true.
Definition UTC (t : Z) : Z := t - LocalTZA t false.

Definition Date_getDay (d : JSDate) : Number :=
  match d with
  | Some t => Some (WeekDay (LocalTime t))
  | None => None
  end.

Definition Date_getDate (d : JSDate) : Number :=
  match d with
  | Some t => Some (DateFromTime (LocalTime t))
  | None => None
  end.

Definition Date_setDate (d : JSDate) (date : Number) : JSDate :=
  match d, date with
  | Some t, Some dt =>
      let t := LocalTime t in
      let newDate :=
        MakeDate (MakeDay (YearFromTime t) (MonthFromTime t) dt)
                 (TimeWithinDay t) in
      TimeClip (UTC newDate)
  | _, _ => None
  end.

Definition Date_setHours (d : JSDate) (hour min sec ms : Z) : JSDate :=
  match d with
  | Some t =>
      let t := LocalTime t in
      let date := MakeDate (Day t) (MakeTime hour min sec ms) in
      TimeClip (UTC date)
  | None => None
  end.

End HostTimeZone.

(** ** Strings *)

Open Scope string_scope.
Open Scope list_scope.
Open Scope Z_scope.

(** [`${v}`] for an optional string: an absent value prints as
    "undefined". *)
Definition template_opt (v : option string) : string :=
  match v with
  | Some s => s
  | None => "undefined"
  end.

(** [s.includes(sub)] *)
Fixpoint String_includes (s sub : string) : bool :=
  String.prefix sub s ||
  match s with
  | EmptyString => false
  | String _ s' => String_includes s' sub
  end.

(** ** Map objects: entries in insertion order, one entry per key *)

Module JSMap.
Section JSMap.
Context {V : Type}.

Definition t := list (string * V).

Definition empty : t := [].

(** [m.set(k, v)]: an existing entry keeps its place and gets the new
    value; a new key is appended. *)
Fixpoint set (m : t) (k : string) (v : V) : t :=
  match m with
  | [] => [(k, v)]
  | (k', v') :: m' =>
      if String.eqb k' k then (k', v) :: m'
      else (k', v') :: set m' k v
  end.

(** [new Map(entries)] *)
Definition from_entries (entries : list (string * V)) : t :=
  fold_left (fun m kv => set m (fst kv) (snd kv)) entries empty.

(** [Array.from(m.values())] *)
Definition values (m : t) : list V := map snd m.

Definition keys (m : t) : list string := map fst m.

(** [m.get(k)] *)
Fixpoint get (m : t) (k : string) : option V :=
  match m with
  | [] => None
  | (k', v') :: m' => if String.eqb k' k then Some v' else get m' k
  end.

(** [m.has(k)] *)
Definition has (m : t) (k : string) : bool :=
  existsb (fun k' => String.eqb k' k) (keys m).

End JSMap.
End JSMap.

(** ** Array.prototype.sort *)

(** The sort of the language is stable; with a consistent comparator its
    result is determined, and insertion from the right computes it.  A
    comparator result of NaN counts as 0. *)
Section ArraySort.
Context {A : Type}.
Variable comparefn : A -> A -> Number.

Definition SortCompare (x y : A) : Z :=
  match comparefn x y with
  | Some v => v
  | None => 0
  end.

Fixpoint sort_insert (x : A) (l : list A) : list A :=
  match l with
  | [] => [x]
  | y :: l' =>
      if SortCompare x y <=? 0 then x :: y :: l'
      else y :: sort_insert x l'
  end.

Definition Array_sort (l : list A) : list A :=
  fold_right sort_insert [] l.

End ArraySort.

(** [for (let i = 0; i < n; i++)] runs over [range n]. *)
Definition range (n : nat) : list Z := map Z.of_nat (seq 0 n).

(** ** The scrapers *)

Record ScrapedEvent : Type := {
  title : string;
  description : option string;
  startTime : JSDate;
  location : option string;
  imageUrl : option string;
  sourceUrl : string;
  category : string;
  isFree : bool
}.

Record Church : Type := {
  church_name : string;
  church_event : string;
  church_day : Z;
  church_time : Z;
  church_location : string;
  church_url : string
}.

Record CommunityEvent : Type := {
  ce_title : string;
  ce_description : string;
  ce_location : string;
  ce_date : Z;
  ce_time : Z;
  ce_url : string
}.

Definition southland : Church :=
  {| church_name := "Southland Christian Church";
     church_event := "Sunday Worship Service";
     church_day := 0;
     church_time := 10;
     church_location := "3530 Man O War Blvd, Lexington, KY";
     church_url := "https://www.southland.org/" |}.

Definition firstPresbyterian : Church :=
  {| church_name := "First Presbyterian Church";
     church_event := "Wednesday Evening Fellowship Dinner";
     church_day := 3;
     church_time := 18;
     church_location := "171 N Mill St, Lexington, KY";
     church_url := "https://www.fpclexington.org/" |}.

Definition churches : list Church := [southland; firstPresbyterian].

Definition cleanupDay : CommunityEvent :=
  {| ce_title := "Community Cleanup Day at Shriners Park";
     ce_description := "Join neighbors to clean and beautify our local park. All ages welcome!";
     ce_location := "Shriners Park, Lexington, KY";
     ce_date := 7;
     ce_time := 9;
     ce_url := "https://www.nextdoor.com/" |}.

Definition yardSale : CommunityEvent :=
  {| ce_title := "East Side Neighborhood Yard Sale";
     ce_description := "Multi-family yard sale across East Side neighborhood. Great deals on furniture, clothes, and more!";
     ce_location := "East Side, Lexington, KY";
     ce_date := 14;
     ce_time := 8;
     ce_url := "https://www.craigslist.org/search/sss" |}.

Definition paintAndSip : CommunityEvent :=
  {| ce_title := "Paint & Sip Night";
     ce_description := "Paint while enjoying beverages with friends. No experience needed. Supplies provided.";
     ce_location := "Downtown Lexington Community Center";
     ce_date := 4;
     ce_time := 19;
     ce_url := "https://www.lexingtonky.gov/" |}.

Definition communityEvents : list CommunityEvent :=
  [cleanupDay; yardSale; paintAndSip].

Definition farmersMarketEvent (eventDate : JSDate) : ScrapedEvent :=
  {| title := "Downtown Farmers Market";
     description := Some "Fresh local produce, honey, plants, and artisan goods. Support local farmers and producers.";
     startTime := eventDate;
     location := Some "Tandy Centennial Park, Lexington, KY";
     category := "food";
     isFree := true;
     sourceUrl := "https://www.lfmky.com/";
     imageUrl := Some "https://images.unsplash.com/photo-1488459716781-31db52582fe9?auto=format&fit=crop&q=80" |}.

Definition churchEvent (church : Church) (date : JSDate) : ScrapedEvent :=
  {| title := (church_name church ++ ": " ++ church_event church)%string;
     description := Some ("Join us for " ++ church_event church ++ " at "
                          ++ church_name church ++ ".")%string;
     startTime := date;
     location := Some (church_location church);
     category := "community";
     isFree := true;
     sourceUrl := church_url church;
     imageUrl := Some "https://images.unsplash.com/photo-1516306574312-e4c05dab37fa?auto=format&fit=crop&q=80" |}.

Definition communityEvent (event : CommunityEvent) (eventDate : JSDate)
  : ScrapedEvent :=
  {| title := ce_title event;
     description := Some (ce_description event);
     startTime := eventDate;
     location := Some (ce_location event);
     category := "community";
     isFree := String_includes (ce_title event) "Cleanup";
     sourceUrl := ce_url event;
     imageUrl := Some "https://images.unsplash.com/photo-1552664730-d307ca884978?auto=format&fit=crop&q=80" |}.

(** Every scraper and the aggregator wrap their body in
    [try { ... } catch (error) { console.error(...); return []; }]. *)
Definition or_empty (body : Completion (list ScrapedEvent))
  : Completion (list ScrapedEvent) :=
  try_catch body (fun _ => Normal []).

Section Scrapers.

Variable LocalTZA : Z -> bool -> Z.

Local Abbreviation getDay := (Date_getDay LocalTZA).
Local Abbreviation getDate := (Date_getDate LocalTZA).
Local Abbreviation setDate := (Date_setDate LocalTZA).
Local Abbreviation setHours := (Date_setHours LocalTZA).

(** *** scrapeLexingtonFarmersMarket *)

(** The date of the candidate of week [i]. *)
Definition farmersMarketDate (now : JSDate) (i : Z) : JSDate :=
  let eventDate := Date_new now in
  let eventDate :=
    setDate eventDate
      (getDate now + ((num 6 - getDay now + num 7) mod num 7)
       + (num i * num 7))%num in
  setHours eventDate 8 0 0 0.

Definition farmersMarketBody (clock : Z) : Completion (list ScrapedEvent) :=
  let now := Date_now clock in
  let events :=
    fold_left
      (fun events i =>
         let eventDate := farmersMarketDate now i in
         if (Date_getTime eventDate >? Date_getTime now)%num
         then events ++ [farmersMarketEvent eventDate]
         else events)
      (range 4) [] in
  Normal events.

Definition scrapeLexingtonFarmersMarket (clock : Z)
  : Completion (list ScrapedEvent) :=
  or_empty (farmersMarketBody clock).

(** *** scrapeChurchEvents *)

(** The next occurrence of the day of the church, at its hour. *)
Definition churchFirstDate (now : JSDate) (church : Church) : JSDate :=
  let eventDate := Date_new now in
  let daysUntilEvent :=
    ((num (church_day church) - getDay eventDate + num 7) mod num 7)%num in
  let eventDate :=
    setDate eventDate (getDate eventDate + daysUntilEvent)%num in
  setHours eventDate (church_time church) 0 0 0.

Definition churchWeekDate (eventDate : JSDate) (week : Z) : JSDate :=
  let date := Date_new eventDate in
  setDate date (getDate date + num week * num 7)%num.

(** The inner loop: the events that one church adds to [events]. *)
Definition churchWeeks (now : JSDate) (church : Church)
    (events : list ScrapedEvent) : list ScrapedEvent :=
  let eventDate := churchFirstDate now church in
  fold_left
    (fun events week =>
       let date := churchWeekDate eventDate week in
       if (Date_getTime date >? Date_getTime now)%num
       then events ++ [churchEvent church date]
       else events)
    (range 8) events.

Definition churchBodyOf (churches : list Church) (clock : Z)
  : Completion (list ScrapedEvent) :=
  let now := Date_now clock in
  let events :=
    fold_left (fun events church => churchWeeks now church events)
              churches [] in
  Normal events.

Definition scrapeChurchEvents (clock : Z) : Completion (list ScrapedEvent) :=
  or_empty (churchBodyOf churches clock).

(** *** scrapeYardSalesAndCommunityEvents *)

Definition communityDate (now : JSDate) (event : CommunityEvent) : JSDate :=
  let eventDate := Date_new now in
  let eventDate :=
    setDate eventDate (getDate eventDate + num (ce_date event))%num in
  setHours eventDate (ce_time event) 0 0 0.

Definition communityBodyOf (communityEvents : list CommunityEvent)
    (clock : Z) : Completion (list ScrapedEvent) :=
  let now := Date_now clock in
  let events :=
    fold_left
      (fun events event =>
         let eventDate := communityDate now event in
         if (Date_getTime eventDate >? Date_getTime now)%num
         then events ++ [communityEvent event eventDate]
         else events)
      communityEvents [] in
  Normal events.

Definition scrapeYardSalesAndCommunityEvents (clock : Z)
  : Completion (list ScrapedEvent) :=
  or_empty (communityBodyOf communityEvents clock).

(** *** fetchAllEvents *)

(** [`${event.title}|${event.startTime.toISOString()}|${event.location}`] *)
Definition eventKey (event : ScrapedEvent) : Completion string :=
  iso <- Date_toISOString (startTime event) ;;
  Normal (title event ++ "|" ++ iso ++ "|"
          ++ template_opt (location event))%string.

(** [(a, b) => a.startTime.getTime() - b.startTime.getTime()]: the two
    time values are at most [2 * maxTime] apart, and the difference of
    doubles has the sign of the exact difference. *)
Definition byStartTime (a b : ScrapedEvent) : Number :=
  (Date_getTime (startTime a) - Date_getTime (startTime b))%num.

(** The array [uniqueEvents], before it is sorted. *)
Definition uniqueEvents (allEvents : list ScrapedEvent)
  : Completion (list ScrapedEvent) :=
  entries <- Array_map (fun event =>
                          key <- eventKey event ;;
                          Normal (key, event)) allEvents ;;
  Normal (JSMap.values (JSMap.from_entries entries)).

(** The aggregator, given the three promises its scrapers returned.
    [await Promise.all] throws if one of them is rejected. *)
Definition fetchAllEventsFrom
    (farmersMarket churches community : Completion (list ScrapedEvent))
  : Completion (list ScrapedEvent) :=
  or_empty (
    farmersMarket <- farmersMarket ;;
    churches <- churches ;;
    community <- community ;;
    let allEvents := farmersMarket ++ churches ++ community in
    uniqueEvents <- uniqueEvents allEvents ;;
    Normal (Array_sort byStartTime uniqueEvents)).

(** The three scrapers run one after the other, to completion, when they
    are called: each reads the clock itself. *)
Definition fetchAllEvents (clock1 clock2 clock3 : Z)
  : Completion (list ScrapedEvent) :=
  fetchAllEventsFrom (scrapeLexingtonFarmersMarket clock1)
                     (scrapeChurchEvents clock2)
                     (scrapeYardSalesAndCommunityEvents clock3).

End Scrapers.


(** ** Vocabulary of the statements *)

(** The key of an event whose date is valid, as a plain string. *)
Definition keyOf (e : ScrapedEvent) : string :=
  match eventKey e with
  | Normal k => k
  | Throw _ => ""
  end.

Definition validDate (e : ScrapedEvent) : Prop := startTime e <> None.

(** The triple the key is made of: title, start time in the Date Time String
    Format, location. *)
Definition keyTriple (e : ScrapedEvent)
  : string * Completion string * option string :=
  (title e, Date_toISOString (startTime e), location e).

Definition hasKey (k : string) (e : ScrapedEvent) : bool :=
  String.eqb (keyOf e) k.

(** Deduplication as the specification words it: the keys in the order of
    their first occurrence ... *)
Fixpoint firstOccurrences (ks : list string) : list string :=
  match ks with
  | [] => []
  | k :: ks' =>
      k :: filter (fun k' => negb (String.eqb k' k)) (firstOccurrences ks')
  end.

(** ... and, for each key, the last record that carries it. *)
Definition lastWithKey (k : string) (l : list ScrapedEvent)
  : option ScrapedEvent :=
  fold_left (fun found e => if hasKey k e then Some e else found) l None.

Definition startsAt (t : Z) (e : ScrapedEvent) : bool :=
  match startTime e with
  | Some t' => t' =? t
  | None => false
  end.

(** [a.startTime <= b.startTime], both dates valid. *)
Definition timeLe (a b : ScrapedEvent) : Prop :=
  match startTime a, startTime b with
  | Some x, Some y => x <= y
  | _, _ => False
  end.

(** [startTime > now], the date valid. *)
Definition startsAfter (now : Z) (e : ScrapedEvent) : Prop :=
  match startTime e with
  | Some t => now < t
  | None => False
  end.


(** *** Assumptions on the host that some statements need *)

(** Two offsets of the zone are never more than eight hours apart. *)
Definition tz_shift_bound (LocalTZA : Z -> bool -> Z) : Prop :=
  forall t t' b b', LocalTZA t b - LocalTZA t' b' <= 8 * msPerHour.

(** No clock change touches the local day number [D]: the zone sits at one
    offset [c] for every local time of that day, seen from local time and
    from UTC. *)
Definition quiet_day (LocalTZA : Z -> bool -> Z) (D : Z) : Prop :=
  exists c,
    (forall x, Day x = D -> LocalTZA x false = c) /\
    (forall u, Day (LocalTime LocalTZA u) = D -> LocalTZA u true = c) /\
    (forall u, Day (u + c) = D -> LocalTZA u true = c).

Definition quiet_saturdays (LocalTZA : Z -> bool -> Z) : Prop :=
  forall D, (D + 4) mod 7 = 6 -> quiet_day LocalTZA D.

(** The clock is thirty days away, at least, from the two ends of the range
    of time values. *)
Definition clock_in_range (clock : Z) : Prop :=
  Z.abs clock <= maxTime - 30 * msPerDay.

(** Three zones: UTC, a zone five hours behind it, and the zone of
    Lexington around the clock change of Sunday 10 March 2024, when 02:00
    at five hours behind UTC became 03:00 at four hours behind.  A local
    time in the hour that was skipped is read with the offset before the
    change. *)
Definition zoneUTC : Z -> bool -> Z := fun _ _ => 0.
Definition zoneEST : Z -> bool -> Z := fun _ _ => -5 * msPerHour.

Definition springForward : Z := 1710054000000.

Definition zoneLexington (t : Z) (isUTC : bool) : Z :=
  if isUTC then
    if t <? springForward then -5 * msPerHour else -4 * msPerHour
  else
    if t <? springForward - 4 * msPerHour then -5 * msPerHour
    else -4 * msPerHour.

(** Monday 4 March 2024, 09:00 in Lexington. *)
Definition lexington_monday_9am : Z := 1709560800000.


(** *** The dates the scrapers compute, in closed form *)

(** [d.setDate(d.getDate() + k)]: the local time of [d] moved by [k] days. *)
Definition addDays (LocalTZA : Z -> bool -> Z) (d : JSDate) (k : Z) : JSDate :=
  match d with
  | Some u => TimeClip (UTC LocalTZA (LocalTime LocalTZA u + k * msPerDay))
  | None => None
  end.

(** [(target - day + 7) % 7] *)
Definition daysUntil (target day : Z) : Z := Z.rem (target - day + 7) 7.

(** The events a loop pushes: one per item that passes the test on its
    date. *)
Definition pushed {A} (date : A -> JSDate) (record : A -> JSDate -> ScrapedEvent)
    (now : JSDate) (items : list A) : list ScrapedEvent :=
  map (fun x => record x (date x))
      (filter (fun x => (Date_getTime (date x) >? Date_getTime now)%num) items).


(** What each scraper returns, loop by loop. *)
Definition farmersMarketEvents (LocalTZA : Z -> bool -> Z) (clock : Z)
  : list ScrapedEvent :=
  pushed (farmersMarketDate LocalTZA (Date_now clock))
         (fun _ => farmersMarketEvent) (Date_now clock) (range 4).

Definition eventsOfChurch (LocalTZA : Z -> bool -> Z) (clock : Z)
    (church : Church) : list ScrapedEvent :=
  pushed (churchWeekDate LocalTZA
            (churchFirstDate LocalTZA (Date_now clock) church))
         (fun _ => churchEvent church) (Date_now clock) (range 8).

Definition churchEvents (LocalTZA : Z -> bool -> Z) (clock : Z)
  : list ScrapedEvent :=
  flat_map (eventsOfChurch LocalTZA clock) churches.

Definition communityEventsAt (LocalTZA : Z -> bool -> Z) (clock : Z)
  : list ScrapedEvent :=
  pushed (communityDate LocalTZA (Date_now clock)) communityEvent
         (Date_now clock) communityEvents.


(** [uniqueEvents] when no date is invalid. *)
Definition keyed (e : ScrapedEvent) : string * ScrapedEvent := (keyOf e, e).

Definition uniqueEventsOf (allEvents : list ScrapedEvent) : list ScrapedEvent :=
  JSMap.values (JSMap.from_entries (map keyed allEvents)).


(** *** Sample inputs *)

(** Monday 1 January 2024, 09:00:00.000 UTC, and the Tuesday and the
    Saturday of that week. *)
Definition monday_9am : Z := 1704099600000.
Definition tuesday_noon : Z := 1704196800000.
Definition saturday_8am : Z := 1704528000000.

Definition sampleEvent (t d : string) (time : Z) : ScrapedEvent :=
  {| title := t;
     description := Some d;
     startTime := Some time;
     location := Some "Lexington, KY";
     imageUrl := None;
     sourceUrl := "https://example.org/";
     category := "community";
     isFree := true |}.

(** Two records with one key and different contents, and a third record
    between them. *)
Definition sampleFirst : ScrapedEvent :=
  sampleEvent "Book Fair" "told by the market" saturday_8am.
Definition sampleOther : ScrapedEvent :=
  sampleEvent "Choir Night" "told by the church" monday_9am.
Definition sampleLast : ScrapedEvent :=
  sampleEvent "Book Fair" "told by the board" saturday_8am.


(** The title of the records of a church, and the records of a result that
    belong to it. *)
Definition churchTitle (church : Church) : string :=
  (church_name church ++ ": " ++ church_event church)%string.

Definition recordsOfChurch (church : Church) (l : list ScrapedEvent)
  : list ScrapedEvent :=
  filter (fun e => String.eqb (title e) (churchTitle church)) l.






(** No character of [s] is the separator of the key. *)
Fixpoint barFree (s : string) : bool :=
  match s with
  | EmptyString => true
  | String c s' => negb (Ascii.eqb c "|") && barFree s'
  end.

(** The start time is a time value in range. *)
Definition timeInRange (e : ScrapedEvent) : Prop :=
  exists t, startTime e = Some t /\ Z.abs t <= maxTime.


Definition titleTime (e : ScrapedEvent) : string * JSDate :=
  (title e, startTime e).


(** *** Vocabulary of the further properties *)

(** [a.startTime < b.startTime], both dates valid. *)
Definition timeLt (a b : ScrapedEvent) : Prop :=
  match startTime a, startTime b with
  | Some x, Some y => x < y
  | _, _ => False
  end.

(** What every record the scrapers build carries. *)
Definition wellFormed (e : ScrapedEvent) : Prop :=
  String.length (title e) <> 0%nat /\
  String.length (sourceUrl e) <> 0%nat /\
  (category e = "food" \/ category e = "community") /\
  (exists d, description e = Some d) /\
  (exists l, location e = Some l) /\
  (exists u, imageUrl e = Some u) /\
  timeInRange e.

(** The record [e] with the location "undefined". *)
Definition withUndefinedLocation (e : ScrapedEvent) : ScrapedEvent :=
  {| title := title e;
     description := description e;
     startTime := startTime e;
     location := Some "undefined";
     imageUrl := imageUrl e;
     sourceUrl := sourceUrl e;
     category := category e;
     isFree := isFree e |}.

(** The clock is sixty days away, at least, from the two ends of the range
    of time values: room for the eight weeks of a church. *)
Definition clock_far_in_range (clock : Z) : Prop :=
  Z.abs clock <= maxTime - 60 * msPerDay.

(** A church template with a day of the week and an hour of the day. *)
Definition validChurch (church : Church) : Prop :=
  0 <= church_day church <= 6 /\ 0 <= church_time church <= 23.

(** The clock reads the day of the church, at its hour or later, local
    time. *)
Definition churchServiceStarted (LocalTZA : Z -> bool -> Z) (clock : Z)
    (church : Church) : Prop :=
  WeekDay (LocalTime LocalTZA clock) = church_day church /\
  church_time church <= HourFromTime (LocalTime LocalTZA clock).

(** No clock change on the day [wd] of the week. *)
Definition quiet_weekday (LocalTZA : Z -> bool -> Z) (wd : Z) : Prop :=
  forall D, (D + 4) mod 7 = wd -> quiet_day LocalTZA D.


(** A zone as [zoneLexington], its clock changed one day earlier: on
    Saturday 9 March 2024. *)
Definition saturdaySwitch : Z := 1709967600000.

Definition zoneSaturdaySwitch (t : Z) (isUTC : bool) : Z :=
  if isUTC then
    if t <? saturdaySwitch then -5 * msPerHour else -4 * msPerHour
  else
    if t <? saturdaySwitch - 4 * msPerHour then -5 * msPerHour
    else -4 * msPerHour.







(** * Properties *)

(** ** The calendar *)

Ltac unfold_ms := unfold msPerDay, msPerHour, msPerMinute, msPerSecond, maxTime in *.

Ltac zdiv := Z.to_euclidean_division_equations; lia.

Lemma Day_TimeWithinDay t : t = Day t * msPerDay + TimeWithinDay t.
Proof. unfold Day, TimeWithinDay; unfold_ms; zdiv. Qed.

Lemma TimeWithinDay_range t : 0 <= TimeWithinDay t < msPerDay.
Proof. unfold TimeWithinDay; unfold_ms; zdiv. Qed.

Lemma Day_add_days t k : Day (t + k * msPerDay) = Day t + k.
Proof. unfold Day; unfold_ms; zdiv. Qed.

Lemma TimeWithinDay_add_days t k :
  TimeWithinDay (t + k * msPerDay) = TimeWithinDay t.
Proof. unfold TimeWithinDay; unfold_ms; zdiv. Qed.

Lemma Day_MakeDate d tm : 0 <= tm < msPerDay -> Day (MakeDate d tm) = d.
Proof. unfold Day, MakeDate; unfold_ms; intros; zdiv. Qed.

Lemma WeekDay_range t : 0 <= WeekDay t <= 6.
Proof. unfold WeekDay; zdiv. Qed.

Lemma DayFromYear_step y : DayFromYear (y + 1) = DayFromYear y + DaysInYear y.
Proof.
  unfold DayFromYear, DaysInYear.
  repeat match goal with
         | |- context [if ?b then _ else _] => destruct b eqn:?
         end;
    rewrite ?negb_true_iff, ?negb_false_iff, ?Z.eqb_eq, ?Z.eqb_neq in *;
    zdiv.
Qed.

(** [YearFromTime t] is the year whose days contain [Day t]. *)
Lemma YearFromTime_spec t :
  DayFromYear (YearFromTime t) <= Day t < DayFromYear (YearFromTime t + 1).
Proof.
  unfold YearFromTime. generalize (Day t) as d; intro d. cbv zeta.
  destruct (Z.ltb_spec d (DayFromYear (1970 + 400 * d / 146097))) as [Hlt|Hge].
  - unfold DayFromYear in *; zdiv.
  - destruct (Z.leb_spec (DayFromYear (1970 + 400 * d / 146097 + 1)) d).
    + unfold DayFromYear in *; zdiv.
    + lia.
Qed.

Lemma DayFromYear_mono y y' : y <= y' -> DayFromYear y <= DayFromYear y'.
Proof. unfold DayFromYear; intros; zdiv. Qed.

(** It is the only such year: the largest [y] with [TimeFromYear y <= t]. *)
Lemma YearFromTime_largest t y :
  TimeFromYear y <= t <-> y <= YearFromTime t.
Proof.
  pose proof (YearFromTime_spec t) as [Hlo Hhi].
  assert (Ht : TimeFromYear y <= t <-> DayFromYear y <= Day t).
  { unfold TimeFromYear, Day; unfold_ms; split; intros; zdiv. }
  rewrite Ht; split; intros H.
  - destruct (Z.le_gt_cases y (YearFromTime t)) as [|Hgt]; [assumption|].
    pose proof (DayFromYear_mono (YearFromTime t + 1) y ltac:(lia)); lia.
  - pose proof (DayFromYear_mono y (YearFromTime t) H); lia.
Qed.

Lemma DaysInYear_cases y : DaysInYear y = 365 + InLeapYearOf y.
Proof.
  unfold InLeapYearOf, DaysInYear.
  destruct (y mod 4 =? 0), (y mod 100 =? 0), (y mod 400 =? 0); reflexivity.
Qed.

Lemma InLeapYearOf_range y : 0 <= InLeapYearOf y <= 1.
Proof. unfold InLeapYearOf; destruct (_ =? _); lia. Qed.

Lemma DayWithinYear_range t :
  0 <= DayWithinYear t < 365 + InLeapYear t.
Proof.
  unfold DayWithinYear, InLeapYear.
  pose proof (YearFromTime_spec t) as H.
  rewrite DayFromYear_step, DaysInYear_cases in H. lia.
Qed.

Lemma MonthFromTime_range t : 0 <= MonthFromTime t <= 11.
Proof.
  unfold MonthFromTime; cbv zeta.
  repeat match goal with
         | |- context [if ?b then _ else _] => destruct b
         end; lia.
Qed.

(** The day of the month counts from the first day of the month. *)
Lemma DateFromTime_monthStart t :
  DateFromTime t =
  DayWithinYear t - monthStart (MonthFromTime t) (InLeapYear t) + 1.
Proof.
  unfold DateFromTime, monthStart; cbv zeta.
  repeat match goal with
         | |- context [if ?b then _ else _] => destruct b
         end; lia.
Qed.

Lemma DateFromTime_range t : 1 <= DateFromTime t <= 31.
Proof.
  pose proof (DayWithinYear_range t) as Hd.
  pose proof (InLeapYearOf_range (YearFromTime t)) as Hl.
  fold (InLeapYear t) in Hl.
  rewrite DateFromTime_monthStart.
  unfold monthStart, MonthFromTime; cbv zeta.
  repeat match goal with
         | |- context [if ?a <? ?b then _ else _] =>
             destruct (Z.ltb_spec a b)
         end.
  all: cbn [Z.eqb Pos.eqb]; lia.
Qed.

(** [d.setDate(d.getDate() + k)], on the local time value: the same time of
    day, [k] days later. *)
Lemma MakeDate_shift t k :
  MakeDate (MakeDay (YearFromTime t) (MonthFromTime t) (DateFromTime t + k))
           (TimeWithinDay t)
  = t + k * msPerDay.
Proof.
  pose proof (MonthFromTime_range t) as Hm.
  unfold MakeDate, MakeDay; cbv zeta.
  replace (MonthFromTime t / 12) with 0 by zdiv.
  replace (MonthFromTime t mod 12) with (MonthFromTime t) by zdiv.
  rewrite Z.add_0_r, DateFromTime_monthStart.
  fold (InLeapYear t). unfold DayWithinYear.
  pose proof (Day_TimeWithinDay t). unfold_ms. lia.
Qed.

Lemma YearFromTime_unique t y :
  DayFromYear y <= Day t < DayFromYear (y + 1) -> YearFromTime t = y.
Proof.
  intros [Hlo Hhi]. pose proof (YearFromTime_spec t) as [Hlo' Hhi'].
  destruct (Z.lt_trichotomy (YearFromTime t) y) as [Hlt | [Heq | Hgt]];
    [|assumption|].
  - pose proof (DayFromYear_mono (YearFromTime t + 1) y ltac:(lia)). lia.
  - pose proof (DayFromYear_mono (y + 1) (YearFromTime t) ltac:(lia)). lia.
Qed.

(** [MakeDay y m 1] is the day of a time value in year [y], month [m], on
    the first of the month: the time value that the language specification
    asks [MakeDay] to find. *)
Lemma MakeDay_first_of_month y m :
  0 <= m <= 11 ->
  let t := MakeDate (MakeDay y m 1) 0 in
  YearFromTime t = y /\ MonthFromTime t = m /\ DateFromTime t = 1.
Proof.
  intros Hm t.
  assert (Hday : Day t = DayFromYear y + monthStart m (InLeapYearOf y)).
  { subst t. rewrite Day_MakeDate by (unfold_ms; lia). unfold MakeDay.
    cbv zeta. replace (m / 12) with 0 by zdiv.
    replace (m mod 12) with m by zdiv. rewrite Z.add_0_r. lia. }
  pose proof (InLeapYearOf_range y) as Hl.
  assert (Hy : YearFromTime t = y).
  { apply YearFromTime_unique. rewrite Hday, DayFromYear_step, DaysInYear_cases.
    unfold monthStart.
    repeat match goal with
           | |- context [if ?a =? ?b then _ else _] => destruct (Z.eqb_spec a b)
           end; lia. }
  assert (Hd : DayWithinYear t = monthStart m (InLeapYearOf y))
    by (unfold DayWithinYear; rewrite Hy, Hday; lia).
  assert (Hmo : MonthFromTime t = m).
  { unfold MonthFromTime, InLeapYear. cbv zeta. rewrite Hy, Hd.
    unfold monthStart.
    repeat match goal with
           | |- context [if ?a =? ?b then _ else _] => destruct (Z.eqb_spec a b)
           end;
    repeat match goal with
           | |- context [if ?a <? ?b then _ else _] => destruct (Z.ltb_spec a b)
           end; lia. }
  repeat split; [assumption .. |].
  rewrite DateFromTime_monthStart, Hmo, Hd. unfold InLeapYear. rewrite Hy. lia.
Qed.


(** ** Date objects *)

Lemma TimeClip_Some t v : TimeClip t = Some v -> v = t /\ Z.abs t <= maxTime.
Proof.
  unfold TimeClip. destruct (Z.gtb_spec (Z.abs t) maxTime); [discriminate|].
  intros [= <-]. split; [reflexivity | assumption].
Qed.

Lemma TimeClip_in_range t : Z.abs t <= maxTime -> TimeClip t = Some t.
Proof.
  unfold TimeClip. destruct (Z.gtb_spec (Z.abs t) maxTime); [lia|reflexivity].
Qed.

Lemma Date_new_TimeClip d : Date_new (Date_new d) = Date_new d.
Proof.
  destruct d as [t|]; [|reflexivity]. cbn.
  destruct (TimeClip t) as [v|] eqn:E; [|reflexivity].
  apply TimeClip_Some in E as [-> H]. cbn. now apply TimeClip_in_range.
Qed.

Lemma num_gt_spec (a b : Number) :
  (a >? b)%num = true <-> exists x y, a = Some x /\ b = Some y /\ y < x.
Proof.
  destruct a as [x|], b as [y|]; cbn; split;
    try discriminate; try (intros (? & ? & ? & ? & ?); discriminate).
  - intros H. exists x, y. repeat split. lia.
  - intros (x' & y' & [= ->] & [= ->] & H). lia.
Qed.

Section DateMethods.

Variable LocalTZA : Z -> bool -> Z.

Lemma setDate_getDate d d' k :
  Date_new d = d' \/ (d' = d /\ Date_new d = d) \/ d' = None ->
  Date_setDate LocalTZA d' (Date_getDate LocalTZA d + num k)%num
  = addDays LocalTZA d' k.
Proof.
  intros Hd. destruct d as [u|].
  - assert (Hd' : d' = Some u \/ d' = None).
    { destruct Hd as [<- | [[-> _] | ->]]; cbn; auto.
      destruct (TimeClip u) as [v|] eqn:E; auto.
      apply TimeClip_Some in E as [-> _]. auto. }
    destruct Hd' as [-> | ->]; [|reflexivity].
    cbn. now rewrite MakeDate_shift.
  - destruct Hd as [<- | [[-> _] | ->]]; reflexivity.
Qed.

Lemma farmersMarketDate_closed clock i :
  farmersMarketDate LocalTZA (Date_now clock) i
  = Date_setHours LocalTZA
      (addDays LocalTZA (TimeClip clock)
         (daysUntil 6 (WeekDay (LocalTime LocalTZA clock)) + i * 7))
      8 0 0 0.
Proof.
  unfold farmersMarketDate, Date_now. cbv zeta.
  change (Date_new (Some clock)) with (TimeClip clock).
  replace ((Date_getDate LocalTZA (Some clock)
            + (num 6 - Date_getDay LocalTZA (Some clock) + num 7) mod num 7
            + num i * num 7)%num)
    with (Date_getDate LocalTZA (Some clock)
          + num (daysUntil 6 (WeekDay (LocalTime LocalTZA clock)) + i * 7))%num
    by (unfold Date_getDate, Date_getDay, num_add, num_sub, num_mul, num_rem,
          num_lift2, num, daysUntil;
        change (7 =? 0) with false; cbv beta iota; f_equal; lia).
  rewrite setDate_getDate; [reflexivity|]. left; reflexivity.
Qed.

Lemma churchFirstDate_closed clock church :
  churchFirstDate LocalTZA (Date_now clock) church
  = Date_setHours LocalTZA
      (addDays LocalTZA (TimeClip clock)
         (daysUntil (church_day church) (WeekDay (LocalTime LocalTZA clock))))
      (church_time church) 0 0 0.
Proof.
  unfold churchFirstDate, Date_now. cbv zeta.
  change (Date_new (Some clock)) with (TimeClip clock).
  destruct (TimeClip clock) as [v|] eqn:E; [|reflexivity].
  apply TimeClip_Some in E as [-> Hr].
  change ((Date_getDate LocalTZA (Some clock)
           + (num (church_day church) - Date_getDay LocalTZA (Some clock)
              + num 7) mod num 7)%num)
    with (Date_getDate LocalTZA (Some clock)
          + num (daysUntil (church_day church)
                   (WeekDay (LocalTime LocalTZA clock))))%num.
  rewrite setDate_getDate; [reflexivity|]. right; left; split; [reflexivity|].
  cbn. apply TimeClip_in_range. assumption.
Qed.

Lemma churchWeekDate_closed eventDate week :
  churchWeekDate LocalTZA eventDate week
  = addDays LocalTZA (Date_new eventDate) (week * 7).
Proof.
  unfold churchWeekDate. cbv zeta.
  change (Date_getDate LocalTZA (Date_new eventDate) + num week * num 7)%num
    with (Date_getDate LocalTZA (Date_new eventDate) + num (week * 7))%num.
  apply setDate_getDate. left. apply Date_new_TimeClip.
Qed.

Lemma communityDate_closed clock event :
  communityDate LocalTZA (Date_now clock) event
  = Date_setHours LocalTZA
      (addDays LocalTZA (TimeClip clock) (ce_date event))
      (ce_time event) 0 0 0.
Proof.
  unfold communityDate, Date_now. cbv zeta.
  change (Date_new (Some clock)) with (TimeClip clock).
  destruct (TimeClip clock) as [v|] eqn:E; [|reflexivity].
  apply TimeClip_Some in E as [-> Hr].
  rewrite setDate_getDate; [reflexivity|]. right; left; split; [reflexivity|].
  cbn. apply TimeClip_in_range. assumption.
Qed.

End DateMethods.


(** ** The loops of the scrapers *)

Lemma push_loop {A} (date : A -> JSDate) (record : A -> JSDate -> ScrapedEvent)
    (now : JSDate) (items : list A) (events : list ScrapedEvent) :
  fold_left
    (fun events x =>
       if (Date_getTime (date x) >? Date_getTime now)%num
       then events ++ [record x (date x)]
       else events)
    items events
  = events ++ pushed date record now items.
Proof.
  unfold pushed. revert events.
  induction items as [|x items IH]; intros events; cbn.
  - now rewrite app_nil_r.
  - rewrite IH. destruct (_ >? _)%num; cbn; [|reflexivity].
    now rewrite <- app_assoc.
Qed.

Lemma pushed_length {A} (date : A -> JSDate) record now (items : list A) :
  (List.length (pushed date record now items) <= List.length items)%nat.
Proof. unfold pushed. rewrite length_map. apply filter_length_le. Qed.

Lemma pushed_after {A} (date : A -> JSDate) record now (items : list A) e :
  In e (pushed date record now items) ->
  exists x, In x items /\ e = record x (date x) /\
            (Date_getTime (date x) >? Date_getTime now)%num = true.
Proof.
  unfold pushed. rewrite in_map_iff. intros (x & <- & Hx).
  apply filter_In in Hx as [Hin Hgt]. eauto.
Qed.

Section ScraperResults.

Variable LocalTZA : Z -> bool -> Z.

Lemma scrapeLexingtonFarmersMarket_eq clock :
  scrapeLexingtonFarmersMarket LocalTZA clock
  = Normal (farmersMarketEvents LocalTZA clock).
Proof.
  unfold scrapeLexingtonFarmersMarket, farmersMarketBody, or_empty; cbn zeta.
  now rewrite push_loop with (record := fun _ => farmersMarketEvent).
Qed.

Lemma churchWeeks_eq clock church events :
  churchWeeks LocalTZA (Date_now clock) church events
  = events ++ eventsOfChurch LocalTZA clock church.
Proof.
  unfold churchWeeks; cbv zeta.
  now rewrite push_loop with (record := fun _ => churchEvent church).
Qed.

Lemma churchBodyOf_eq cs clock :
  churchBodyOf LocalTZA cs clock
  = Normal (flat_map (eventsOfChurch LocalTZA clock) cs).
Proof.
  unfold churchBodyOf; cbv zeta. f_equal.
  change (flat_map (eventsOfChurch LocalTZA clock) cs)
    with ([] ++ flat_map (eventsOfChurch LocalTZA clock) cs).
  generalize (@nil ScrapedEvent) as events.
  induction cs as [|church cs IH]; intros events; cbn [fold_left flat_map].
  - now rewrite app_nil_r.
  - rewrite IH, churchWeeks_eq. now rewrite app_assoc.
Qed.

Lemma scrapeChurchEvents_eq clock :
  scrapeChurchEvents LocalTZA clock = Normal (churchEvents LocalTZA clock).
Proof.
  unfold scrapeChurchEvents. now rewrite churchBodyOf_eq.
Qed.

Lemma scrapeYardSalesAndCommunityEvents_eq clock :
  scrapeYardSalesAndCommunityEvents LocalTZA clock
  = Normal (communityEventsAt LocalTZA clock).
Proof.
  unfold scrapeYardSalesAndCommunityEvents, communityBodyOf, or_empty; cbn zeta.
  now rewrite push_loop.
Qed.

(** Every record a loop pushes starts after the clock reading. *)
Lemma pushed_startsAfter {A} (date : A -> JSDate) record clock now
    (items : list A) :
  now <= clock ->
  (forall x d, startTime (record x d) = d) ->
  Forall (startsAfter now) (pushed date record (Date_now clock) items).
Proof.
  intros Hnow Hrec. apply Forall_forall. intros e He.
  apply pushed_after in He as (x & _ & -> & Hgt).
  apply num_gt_spec in Hgt as (t & c & Ht & [= <-] & Hlt).
  unfold startsAfter. rewrite Hrec. unfold Date_getTime in Ht. rewrite Ht. lia.
Qed.

Lemma farmersMarketEvents_after now clock :
  now <= clock -> Forall (startsAfter now) (farmersMarketEvents LocalTZA clock).
Proof. intros H. now apply pushed_startsAfter. Qed.

Lemma churchEvents_after now clock :
  now <= clock -> Forall (startsAfter now) (churchEvents LocalTZA clock).
Proof.
  intros H. unfold churchEvents. apply Forall_flat_map, Forall_forall.
  intros church _. now apply pushed_startsAfter.
Qed.

Lemma communityEventsAt_after now clock :
  now <= clock -> Forall (startsAfter now) (communityEventsAt LocalTZA clock).
Proof. intros H. now apply pushed_startsAfter. Qed.

End ScraperResults.


(** ** Map objects *)

Module JSMapFacts.
Section JSMapFacts.

Context {V : Type}.
Implicit Types (m : @JSMap.t V) (k : string) (v : V).

Lemma has_In m k : JSMap.has m k = true <-> In k (JSMap.keys m).
Proof.
  unfold JSMap.has. rewrite existsb_exists. split.
  - intros (k' & Hin & Heq). apply String.eqb_eq in Heq. now subst.
  - intros Hin. exists k. split; [assumption | apply String.eqb_refl].
Qed.

Lemma keys_set m k v :
  JSMap.keys (JSMap.set m k v)
  = if JSMap.has m k then JSMap.keys m else JSMap.keys m ++ [k].
Proof.
  unfold JSMap.has, JSMap.keys.
  induction m as [|[k' v'] m IH]; [reflexivity|].
  cbn [JSMap.set map fst existsb].
  destruct (String.eqb k' k) eqn:E; cbn [map fst orb]; [reflexivity|].
  rewrite IH. now destruct (existsb _ (map fst m)).
Qed.

Lemma get_set m k v k' :
  JSMap.get (JSMap.set m k v) k'
  = if String.eqb k k' then Some v else JSMap.get m k'.
Proof.
  induction m as [|[k0 v0] m IH]; cbn.
  - reflexivity.
  - destruct (String.eqb k0 k) eqn:E0; cbn.
    + apply String.eqb_eq in E0 as ->. now destruct (String.eqb k k').
    + rewrite IH. destruct (String.eqb k0 k') eqn:E1; [|reflexivity].
      apply String.eqb_eq in E1 as ->.
      rewrite String.eqb_sym in E0. now rewrite E0.
Qed.

Lemma get_from_entries entries m k :
  JSMap.get (fold_left (fun m kv => JSMap.set m (fst kv) (snd kv)) entries m) k
  = fold_left (fun found kv =>
                 if String.eqb (fst kv) k then Some (snd kv) else found)
              entries (JSMap.get m k).
Proof.
  revert m. induction entries as [|[k0 v0] entries IH]; intros m; cbn.
  - reflexivity.
  - now rewrite IH, get_set.
Qed.

Lemma get_In m k v :
  NoDup (JSMap.keys m) -> (In (k, v) m <-> JSMap.get m k = Some v).
Proof.
  induction m as [|[k0 v0] m IH]; cbn; intros Hnd.
  - split; [tauto | discriminate].
  - inversion Hnd as [|? ? Hnotin Hnd']; subst.
    destruct (String.eqb k0 k) eqn:E.
    + apply String.eqb_eq in E as ->. split.
      * intros [[= ->] | Hin]; [reflexivity|].
        exfalso. apply Hnotin. apply in_map_iff. now exists (k, v).
      * intros [= ->]. now left.
    + apply String.eqb_neq in E. rewrite <- (IH Hnd'). split.
      * intros [[= -> ->] | Hin]; [congruence | assumption].
      * intros Hin. now right.
Qed.

Lemma set_invariant (P : string -> V -> Prop) m k v :
  (forall k' v', In (k', v') m -> P k' v') -> P k v ->
  forall k' v', In (k', v') (JSMap.set m k v) -> P k' v'.
Proof.
  induction m as [|[k0 v0] m IH]; cbn; intros Hm Hkv k' v'.
  - intros [[= <- <-] | []]. assumption.
  - destruct (String.eqb k0 k) eqn:E; cbn.
    + apply String.eqb_eq in E as ->.
      intros [[= <- <-] | Hin]; [assumption | apply Hm; now right].
    + intros [[= <- <-] | Hin].
      * apply Hm. now left.
      * apply IH; auto.
Qed.

Lemma from_entries_invariant (P : string -> V -> Prop) entries :
  (forall k v, In (k, v) entries -> P k v) ->
  forall k v, In (k, v) (JSMap.from_entries entries) -> P k v.
Proof.
  unfold JSMap.from_entries.
  assert (H : forall m, (forall k v, In (k, v) m -> P k v) ->
            (forall k v, In (k, v) entries -> P k v) ->
            forall k v,
              In (k, v) (fold_left (fun m kv => JSMap.set m (fst kv) (snd kv))
                                   entries m) -> P k v).
  { induction entries as [|[k0 v0] entries IH]; intros m Hm He; cbn.
    - assumption.
    - apply IH.
      + apply set_invariant; [assumption | apply He; now left].
      + intros k v Hin. apply He. now right. }
  intros He. apply H; [intros ? ? [] | assumption].
Qed.

End JSMapFacts.
End JSMapFacts.


(** ** Deduplication *)

Lemma filter_filter_andb {A} (p q : A -> bool) (l : list A) :
  filter p (filter q l) = filter (fun x => q x && p x) l.
Proof.
  induction l as [|x l IH]; cbn; [reflexivity|].
  destruct (q x); cbn; [destruct (p x)|]; now rewrite IH.
Qed.

Lemma firstOccurrences_In ks k : In k (firstOccurrences ks) <-> In k ks.
Proof.
  induction ks as [|k0 ks IH]; cbn; [tauto|].
  rewrite filter_In, IH, negb_true_iff, String.eqb_neq.
  destruct (String.eqb_spec k0 k); intuition congruence.
Qed.

Lemma firstOccurrences_NoDup ks : NoDup (firstOccurrences ks).
Proof.
  induction ks as [|k0 ks IH]; cbn; constructor.
  - rewrite filter_In, negb_true_iff, String.eqb_neq. tauto.
  - now apply NoDup_filter.
Qed.

Lemma has_set {V} (m : @JSMap.t V) k v k' :
  JSMap.has (JSMap.set m k v) k' = JSMap.has m k' || String.eqb k k'.
Proof.
  unfold JSMap.has at 1. rewrite JSMapFacts.keys_set.
  destruct (JSMap.has m k) eqn:E.
  - fold (JSMap.has m k'). destruct (String.eqb_spec k k') as [<-|];
      [now rewrite E | now rewrite orb_false_r].
  - rewrite existsb_app. cbn. now rewrite orb_false_r.
Qed.

Lemma keys_fold_set {V} (entries : list (string * V)) (m : @JSMap.t V) :
  JSMap.keys (fold_left (fun m kv => JSMap.set m (fst kv) (snd kv)) entries m)
  = JSMap.keys m
    ++ filter (fun k => negb (JSMap.has m k))
              (firstOccurrences (map fst entries)).
Proof.
  revert m. induction entries as [|[k0 v0] entries IH]; intros m.
  - cbn. now rewrite app_nil_r.
  - cbn [fold_left map fst snd firstOccurrences filter].
    rewrite IH, JSMapFacts.keys_set, filter_filter_andb.
    assert (Hext : filter (fun k => negb (JSMap.has (JSMap.set m k0 v0) k))
                          (firstOccurrences (map fst entries))
                   = filter (fun k => negb (String.eqb k k0)
                                      && negb (JSMap.has m k))
                            (firstOccurrences (map fst entries))).
    { apply filter_ext. intros k. rewrite has_set, negb_orb.
      now rewrite andb_comm, (String.eqb_sym k0 k). }
    rewrite Hext. destruct (JSMap.has m k0); cbn [negb].
    + reflexivity.
    + now rewrite <- app_assoc.
Qed.

Lemma keys_from_entries {V} (entries : list (string * V)) :
  JSMap.keys (JSMap.from_entries entries) = firstOccurrences (map fst entries).
Proof.
  unfold JSMap.from_entries. rewrite keys_fold_set. cbn.
  induction (firstOccurrences (map fst entries)) as [|k ks IH]; cbn;
    congruence.
Qed.

Lemma eventKey_valid e :
  validDate e -> eventKey e = Normal (keyOf e).
Proof.
  unfold validDate, keyOf, eventKey. destruct (startTime e); [reflexivity|].
  intros H. now contradiction H.
Qed.

Lemma eventKey_invalid e :
  startTime e = None -> exists x, eventKey e = Throw x.
Proof. unfold eventKey. intros ->. cbn. eauto. Qed.

Lemma uniqueEvents_valid l :
  Forall validDate l -> uniqueEvents l = Normal (uniqueEventsOf l).
Proof.
  intros H. unfold uniqueEvents, uniqueEventsOf.
  assert (E : Array_map (fun event => key <- eventKey event ;;
                                      Normal (key, event)) l
              = Normal (map keyed l)).
  { induction H as [|e l He _ IH]; cbn; [reflexivity|].
    now rewrite (eventKey_valid e He), IH. }
  now rewrite E.
Qed.

Lemma uniqueEvents_invalid l :
  Exists (fun e => startTime e = None) l -> exists x, uniqueEvents l = Throw x.
Proof.
  intros H. unfold uniqueEvents.
  assert (E : exists x, Array_map (fun event => key <- eventKey event ;;
                                                Normal (key, event)) l
                        = Throw x).
  { induction l as [|e l IH]; [inversion H|].
    cbn. destruct (startTime e) as [t|] eqn:Et.
    - unfold eventKey at 1. rewrite Et. cbn.
      inversion H as [? ? Hn | ? ? Hex]; subst; [congruence|].
      destruct (IH Hex) as (x & ->). cbn. eauto.
    - destruct (eventKey_invalid e Et) as (x & ->). cbn. eauto. }
  destruct E as (x & ->). cbn. eauto.
Qed.

Lemma fold_left_map {A B C} (f : A -> B -> A) (g : C -> B) l a :
  fold_left f (map g l) a = fold_left (fun a x => f a (g x)) l a.
Proof. revert a. induction l; intros; cbn; auto. Qed.

Lemma uniqueEventsOf_entries l k e :
  In (k, e) (JSMap.from_entries (map keyed l)) -> k = keyOf e.
Proof.
  apply (JSMapFacts.from_entries_invariant (fun k e => k = keyOf e)).
  intros k' e'. rewrite in_map_iff. now intros (x & [= <- <-] & _).
Qed.

Lemma uniqueEventsOf_keys l :
  map keyOf (uniqueEventsOf l) = firstOccurrences (map keyOf l).
Proof.
  unfold uniqueEventsOf, JSMap.values.
  transitivity (JSMap.keys (JSMap.from_entries (map keyed l))).
  - unfold JSMap.keys. rewrite map_map. apply map_ext_in.
    intros [k e] Hin. cbn. symmetry. now apply uniqueEventsOf_entries in Hin.
  - rewrite keys_from_entries, map_map. reflexivity.
Qed.

Lemma uniqueEventsOf_NoDup l : NoDup (map keyOf (uniqueEventsOf l)).
Proof. rewrite uniqueEventsOf_keys. apply firstOccurrences_NoDup. Qed.

Lemma get_uniqueEventsOf l k :
  JSMap.get (JSMap.from_entries (map keyed l)) k = lastWithKey k l.
Proof.
  unfold JSMap.from_entries, lastWithKey.
  rewrite JSMapFacts.get_from_entries, fold_left_map. reflexivity.
Qed.

(** The record kept for a key is the last one that carries it. *)
Lemma uniqueEventsOf_last l e :
  In e (uniqueEventsOf l) <-> lastWithKey (keyOf e) l = Some e.
Proof.
  assert (Hnd : NoDup (JSMap.keys (JSMap.from_entries (map keyed l))))
    by (rewrite keys_from_entries; apply firstOccurrences_NoDup).
  rewrite <- get_uniqueEventsOf, <- (JSMapFacts.get_In _ _ _ Hnd).
  unfold uniqueEventsOf, JSMap.values. rewrite in_map_iff. split.
  - intros ([k e'] & Heq & Hin). cbn in Heq. subst e'.
    now rewrite <- (uniqueEventsOf_entries _ _ _ Hin).
  - intros Hin. now exists (keyOf e, e).
Qed.

Lemma lastWithKey_In k l e : lastWithKey k l = Some e -> In e l /\ keyOf e = k.
Proof.
  unfold lastWithKey.
  assert (H : forall found,
             fold_left (fun found e => if hasKey k e then Some e else found)
                       l found = Some e ->
             (In e l /\ keyOf e = k) \/ found = Some e).
  { induction l as [|x l IH]; intros found; cbn; [now right|].
    intros Hf. apply IH in Hf as [[Hin Hk] | Hf]; [left; split; auto|].
    unfold hasKey in Hf. destruct (String.eqb_spec (keyOf x) k).
    - injection Hf as ->. left. split; [now left | assumption].
    - now right. }
  intros Hf. apply H in Hf as [? | ?]; [assumption | discriminate].
Qed.

Lemma lastWithKey_Some k l :
  In k (map keyOf l) -> exists e, lastWithKey k l = Some e.
Proof.
  unfold lastWithKey.
  assert (H : forall found,
             In k (map keyOf l) \/ found <> None ->
             exists e,
               fold_left (fun found e => if hasKey k e then Some e else found)
                         l found = Some e).
  { induction l as [|x l IH]; intros found; cbn.
    - intros [[] | Hf]. destruct found; [eauto | congruence].
    - intros [[Hx | Hin] | Hf]; apply IH.
      + right. unfold hasKey. rewrite Hx, String.eqb_refl. discriminate.
      + now left.
      + right. destruct (hasKey k x); [discriminate | assumption]. }
  intros Hin. apply H. now left.
Qed.

(** The last record with key [k], in the words of lists: it is followed by
    no record with that key. *)
Lemma lastWithKey_split k l e :
  lastWithKey k l = Some e <->
  exists l1 l2, l = l1 ++ e :: l2 /\ keyOf e = k /\
                Forall (fun e' => keyOf e' <> k) l2.
Proof.
  unfold lastWithKey. split.
  - assert (H : forall found,
               fold_left (fun found e => if hasKey k e then Some e else found)
                         l found = Some e ->
               (exists l1 l2, l = l1 ++ e :: l2 /\ keyOf e = k /\
                              Forall (fun e' => keyOf e' <> k) l2)
               \/ (found = Some e /\ Forall (fun e' => keyOf e' <> k) l)).
    { induction l as [|x l IH]; intros found; cbn; [now right|].
      intros Hf. apply IH in Hf as [(l1 & l2 & -> & Hk & Hl2) | [Hf Hl]].
      - left. exists (x :: l1), l2. auto.
      - unfold hasKey in Hf. destruct (String.eqb_spec (keyOf x) k).
        + injection Hf as ->. left. exists [], l. auto.
        + right. auto. }
    intros Hf. apply H in Hf as [? | [? _]]; [assumption | discriminate].
  - intros (l1 & l2 & -> & Hk & Hl2). rewrite fold_left_app. cbn.
    unfold hasKey at 2. rewrite Hk, String.eqb_refl.
    clear l1. induction Hl2 as [|x l2 Hx _ IH]; cbn; [reflexivity|].
    unfold hasKey at 2. apply String.eqb_neq in Hx. now rewrite Hx.
Qed.

Lemma filter_hasKey_NoDup l e :
  NoDup (map keyOf l) -> In e l -> filter (hasKey (keyOf e)) l = [e].
Proof.
  induction l as [|x l IH]; cbn; [tauto|].
  intros Hnd [-> | Hin]; inversion Hnd as [|? ? Hnotin Hnd']; subst.
  - unfold hasKey at 1. rewrite String.eqb_refl. f_equal.
    clear IH Hnd Hnd'. induction l as [|y l IH]; cbn; [reflexivity|].
    unfold hasKey at 1. cbn in Hnotin.
    destruct (String.eqb_spec (keyOf y) (keyOf e)); [tauto|].
    apply IH. tauto.
  - unfold hasKey at 1. destruct (String.eqb_spec (keyOf x) (keyOf e)) as [Heq|].
    + exfalso. apply Hnotin. rewrite Heq. now apply in_map.
    + now apply IH.
Qed.


(** ** Sorting by start time *)

Lemma sort_insert_perm {A} (cmp : A -> A -> Number) x l :
  Permutation (sort_insert cmp x l) (x :: l).
Proof.
  induction l as [|y l IH]; cbn; [reflexivity|].
  destruct (_ <=? _); [reflexivity|].
  rewrite IH. apply perm_swap.
Qed.

Lemma Array_sort_perm {A} (cmp : A -> A -> Number) l :
  Permutation (Array_sort cmp l) l.
Proof.
  induction l as [|x l IH]; cbn; [reflexivity|].
  fold (Array_sort cmp l). rewrite sort_insert_perm. now constructor.
Qed.

Lemma Array_sort_length {A} (cmp : A -> A -> Number) l :
  List.length (Array_sort cmp l) = List.length l.
Proof. apply Permutation_length, Array_sort_perm. Qed.

Lemma validDate_Some e : validDate e -> exists t, startTime e = Some t.
Proof.
  unfold validDate. destruct (startTime e) as [t|]; [eauto | congruence].
Qed.

Lemma SortCompare_byStartTime a b ta tb :
  startTime a = Some ta -> startTime b = Some tb ->
  SortCompare byStartTime a b = ta - tb.
Proof.
  intros Ha Hb. unfold SortCompare, byStartTime, Date_getTime.
  now rewrite Ha, Hb.
Qed.

Lemma timeLe_trans a b c : timeLe a b -> timeLe b c -> timeLe a c.
Proof.
  unfold timeLe.
  destruct (startTime a), (startTime b), (startTime c); try tauto. lia.
Qed.

Lemma sort_insert_sorted x l :
  validDate x -> Forall validDate l ->
  StronglySorted timeLe l ->
  StronglySorted timeLe (sort_insert byStartTime x l).
Proof.
  intros Hx Hl Hs. destruct (validDate_Some x Hx) as (tx & Etx).
  induction Hs as [|y l Hs IH Hy]; cbn.
  - repeat constructor.
  - inversion Hl as [|? ? Hvy Hl']; subst.
    destruct (validDate_Some y Hvy) as (ty & Ety).
    rewrite (SortCompare_byStartTime x y tx ty Etx Ety).
    destruct (Z.leb_spec (tx - ty) 0) as [Hle|Hgt].
    + assert (Hxy : timeLe x y) by (unfold timeLe; rewrite Etx, Ety; lia).
      constructor; [now constructor|].
      constructor; [assumption|].
      eapply Forall_impl; [|exact Hy]. intros z. now apply timeLe_trans.
    + constructor; [now apply IH|].
      assert (Hyx : timeLe y x) by (unfold timeLe; rewrite Etx, Ety; lia).
      eapply Permutation_Forall;
        [symmetry; apply sort_insert_perm|].
      now constructor.
Qed.

Lemma Array_sort_sorted l :
  Forall validDate l -> StronglySorted timeLe (Array_sort byStartTime l).
Proof.
  induction 1 as [|x l Hx Hl IH]; cbn; [constructor|].
  fold (Array_sort byStartTime l). apply sort_insert_sorted; auto.
  eapply Permutation_Forall; [symmetry; apply Array_sort_perm | assumption].
Qed.

(** The sort is stable: the records that start at [t] keep their order. *)
Lemma sort_insert_stable t x l :
  validDate x -> Forall validDate l ->
  filter (startsAt t) (sort_insert byStartTime x l)
  = filter (startsAt t) (x :: l).
Proof.
  intros Hx Hl. destruct (validDate_Some x Hx) as (tx & Etx).
  induction Hl as [|y l Hy Hl IH]; [reflexivity|].
  cbn [sort_insert]. destruct (validDate_Some y Hy) as (ty & Ety).
  rewrite (SortCompare_byStartTime x y tx ty Etx Ety).
  destruct (Z.leb_spec (tx - ty) 0) as [Hle|Hgt]; [reflexivity|].
  cbn [filter] in *. rewrite IH.
  destruct (startsAt t x) eqn:Ex, (startsAt t y) eqn:Ey; try reflexivity.
  unfold startsAt in Ex, Ey. rewrite Etx in Ex. rewrite Ety in Ey.
  apply Z.eqb_eq in Ex, Ey. lia.
Qed.

Lemma Array_sort_stable t l :
  Forall validDate l ->
  filter (startsAt t) (Array_sort byStartTime l) = filter (startsAt t) l.
Proof.
  induction 1 as [|x l Hx Hl IH]; [reflexivity|].
  cbn [Array_sort fold_right]. fold (Array_sort byStartTime l).
  rewrite sort_insert_stable; auto.
  - cbn [filter]. now rewrite IH.
  - eapply Permutation_Forall; [symmetry; apply Array_sort_perm | assumption].
Qed.

(** Sorted, stable and a permutation: this determines the result, whatever
    algorithm the engine runs. *)
Lemma stable_sort_unique l1 l2 :
  Forall validDate l1 ->
  StronglySorted timeLe l1 -> StronglySorted timeLe l2 ->
  Permutation l1 l2 ->
  (forall t, filter (startsAt t) l1 = filter (startsAt t) l2) ->
  l1 = l2.
Proof.
  intros Hv Hs1. revert l2.
  induction Hs1 as [|x l1 Hs1 IH Hx]; intros l2 Hs2 Hp Hst.
  - apply Permutation_nil in Hp. now subst.
  - destruct l2 as [|y l2]; [symmetry in Hp; now apply Permutation_nil in Hp|].
    inversion Hv as [|? ? Hvx Hv1]; subst.
    inversion Hs2 as [|? ? Hs2' Hy]; subst.
    destruct (validDate_Some x Hvx) as (tx & Etx).
    assert (Hyv : validDate y).
    { eapply Forall_forall; [|eapply Permutation_in;
        [symmetry; exact Hp | now left]]. assumption. }
    destruct (validDate_Some y Hyv) as (ty & Ety).
    assert (Hxy : tx = ty).
    { assert (H1 : In y (x :: l1))
        by (eapply Permutation_in; [symmetry; exact Hp | now left]).
      assert (H2 : In x (y :: l2))
        by (eapply Permutation_in; [exact Hp | now left]).
      assert (tx <= ty).
      { destruct H1 as [-> | H1]; [assert (tx = ty) by congruence; lia|].
        rewrite Forall_forall in Hx. specialize (Hx y H1).
        unfold timeLe in Hx. now rewrite Etx, Ety in Hx. }
      assert (ty <= tx).
      { destruct H2 as [-> | H2]; [assert (ty = tx) by congruence; lia|].
        rewrite Forall_forall in Hy. specialize (Hy x H2).
        unfold timeLe in Hy. now rewrite Etx, Ety in Hy. }
      lia. }
    subst ty. pose proof (Hst tx) as Htx. cbn [filter] in Htx.
    assert (Ex : startsAt tx x = true)
      by (unfold startsAt; rewrite Etx; apply Z.eqb_refl).
    assert (Ey : startsAt tx y = true)
      by (unfold startsAt; rewrite Ety; apply Z.eqb_refl).
    rewrite Ex, Ey in Htx. injection Htx as -> _. f_equal. apply IH; auto.
    + eapply Permutation_cons_inv; exact Hp.
    + intros t. specialize (Hst t). cbn [filter] in Hst.
      destruct (startsAt t y); [now injection Hst | assumption].
Qed.


(** ** The aggregator *)

Lemma valid_or_invalid (l : list ScrapedEvent) :
  Forall validDate l \/ Exists (fun e => startTime e = None) l.
Proof.
  induction l as [|e l [IH|IH]]; [left; constructor | |right; now constructor].
  destruct (startTime e) as [t|] eqn:E.
  - left. constructor; [|assumption]. unfold validDate. congruence.
  - right. now constructor.
Qed.

Lemma uniqueEventsOf_incl l e : In e (uniqueEventsOf l) -> In e l.
Proof.
  rewrite uniqueEventsOf_last. intros H. now apply lastWithKey_In in H.
Qed.

Lemma uniqueEventsOf_Forall (P : ScrapedEvent -> Prop) l :
  Forall P l -> Forall P (uniqueEventsOf l).
Proof.
  rewrite !Forall_forall. intros H e He. apply H. now apply uniqueEventsOf_incl.
Qed.

Lemma fetchAllEventsFrom_valid fm ch co :
  Forall validDate (fm ++ ch ++ co) ->
  fetchAllEventsFrom (Normal fm) (Normal ch) (Normal co)
  = Normal (Array_sort byStartTime (uniqueEventsOf (fm ++ ch ++ co))).
Proof.
  intros H. unfold fetchAllEventsFrom. cbn [bind].
  now rewrite (uniqueEvents_valid _ H).
Qed.

Lemma fetchAllEventsFrom_invalid fm ch co :
  Exists (fun e => startTime e = None) (fm ++ ch ++ co) ->
  fetchAllEventsFrom (Normal fm) (Normal ch) (Normal co) = Normal [].
Proof.
  intros H. unfold fetchAllEventsFrom. cbn [bind].
  now destruct (uniqueEvents_invalid _ H) as (x & ->).
Qed.

Lemma fetchAllEventsFrom_rejected p1 p2 p3 x :
  p1 = Throw x \/ p2 = Throw x \/ p3 = Throw x ->
  fetchAllEventsFrom p1 p2 p3 = Normal [].
Proof.
  unfold fetchAllEventsFrom.
  intros [-> | [-> | ->]];
    repeat match goal with
           | p : Completion (list ScrapedEvent) |- _ => destruct p
           end; reflexivity.
Qed.

(** Either the three promises are fulfilled with valid dates and the result
    is the sorted array of unique events, or the result is empty. *)
Lemma fetchAllEventsFrom_cases p1 p2 p3 :
  (exists fm ch co,
      p1 = Normal fm /\ p2 = Normal ch /\ p3 = Normal co /\
      Forall validDate (fm ++ ch ++ co) /\
      fetchAllEventsFrom p1 p2 p3
      = Normal (Array_sort byStartTime (uniqueEventsOf (fm ++ ch ++ co))))
  \/ fetchAllEventsFrom p1 p2 p3 = Normal [].
Proof.
  destruct p1 as [fm|x]; [|right; eapply fetchAllEventsFrom_rejected; eauto].
  destruct p2 as [ch|x]; [|right; eapply fetchAllEventsFrom_rejected; eauto].
  destruct p3 as [co|x]; [|right; eapply fetchAllEventsFrom_rejected; eauto].
  destruct (valid_or_invalid (fm ++ ch ++ co)) as [H|H].
  - left. exists fm, ch, co. repeat split; auto.
    now apply fetchAllEventsFrom_valid.
  - right. now apply fetchAllEventsFrom_invalid.
Qed.

Lemma startsAfter_valid now e : startsAfter now e -> validDate e.
Proof.
  unfold startsAfter, validDate. destruct (startTime e); [discriminate|tauto].
Qed.

Lemma scraped_valid LocalTZA c1 c2 c3 :
  Forall validDate (farmersMarketEvents LocalTZA c1
                    ++ churchEvents LocalTZA c2
                    ++ communityEventsAt LocalTZA c3).
Proof.
  rewrite !Forall_app. repeat split;
    (eapply Forall_impl; [apply startsAfter_valid|]).
  - apply (farmersMarketEvents_after LocalTZA c1 c1). lia.
  - apply (churchEvents_after LocalTZA c2 c2). lia.
  - apply (communityEventsAt_after LocalTZA c3 c3). lia.
Qed.

Lemma fetchAllEvents_eq LocalTZA c1 c2 c3 :
  fetchAllEvents LocalTZA c1 c2 c3
  = Normal (Array_sort byStartTime
              (uniqueEventsOf (farmersMarketEvents LocalTZA c1
                               ++ churchEvents LocalTZA c2
                               ++ communityEventsAt LocalTZA c3))).
Proof.
  unfold fetchAllEvents.
  rewrite scrapeLexingtonFarmersMarket_eq, scrapeChurchEvents_eq,
    scrapeYardSalesAndCommunityEvents_eq.
  apply fetchAllEventsFrom_valid, scraped_valid.
Qed.


(** ** Claims on deduplication and order *)

Lemma firstOccurrences_app a b :
  firstOccurrences (a ++ b)
  = firstOccurrences a
    ++ filter (fun k => negb (existsb (fun k' => String.eqb k' k) a))
              (firstOccurrences b).
Proof.
  induction a as [|k0 a IH]; cbn.
  - induction (firstOccurrences b) as [|k ks IHk]; cbn; congruence.
  - rewrite IH, filter_app, filter_filter_andb. do 2 f_equal.
    apply filter_ext. intros k. rewrite negb_orb, andb_comm.
    now rewrite (String.eqb_sym k0 k).
Qed.

Lemma existsb_eqb_false ks k :
  Forall (fun k' => k' <> k) ks ->
  existsb (fun k' => String.eqb k' k) ks = false.
Proof.
  induction 1 as [|k' ks Hk _ IH]; cbn; [reflexivity|].
  apply String.eqb_neq in Hk. now rewrite Hk.
Qed.

Lemma NoDup_same_key l e e' :
  NoDup (map keyOf l) -> In e l -> In e' l -> keyOf e = keyOf e' -> e = e'.
Proof.
  intros Hnd He He' Hk.
  pose proof (filter_hasKey_NoDup l e Hnd He) as Hf.
  assert (Hin : In e' (filter (hasKey (keyOf e)) l)).
  { apply filter_In. split; [assumption|].
    unfold hasKey. rewrite Hk. apply String.eqb_refl. }
  rewrite Hf in Hin. destruct Hin as [-> | []]. reflexivity.
Qed.

(** C1. When records of the concatenated scraper results share a key, one
    record with that key is left after deduplication; before sorting it sits
    where the first record with that key sat, among the records kept, and it
    is the last record with that key of the concatenation. *)
Theorem dedup_first_position_last_content (fm ch co : list ScrapedEvent) :
  let allEvents := fm ++ ch ++ co in
  Forall validDate allEvents ->
  exists unique,
    uniqueEvents allEvents = Normal unique /\
    fetchAllEventsFrom (Normal fm) (Normal ch) (Normal co)
    = Normal (Array_sort byStartTime unique) /\
    map keyOf unique = firstOccurrences (map keyOf allEvents) /\
    forall before first after,
      allEvents = before ++ first :: after ->
      Forall (fun e => keyOf e <> keyOf first) before ->
      exists last l1 l2 u1 u2,
        allEvents = l1 ++ last :: l2 /\
        keyOf last = keyOf first /\
        Forall (fun e => keyOf e <> keyOf first) l2 /\
        unique = u1 ++ last :: u2 /\
        map keyOf u1 = firstOccurrences (map keyOf before) /\
        filter (hasKey (keyOf first)) unique = [last] /\
        filter (hasKey (keyOf first)) (Array_sort byStartTime unique) = [last].
Proof.
  intros allEvents Hvalid. exists (uniqueEventsOf allEvents).
  split; [now apply uniqueEvents_valid|].
  split; [now apply fetchAllEventsFrom_valid|].
  split; [apply uniqueEventsOf_keys|].
  intros before first after Hall Hbefore.
  set (k := keyOf first) in *.
  assert (Hk : In k (map keyOf allEvents)).
  { rewrite Hall, map_app, in_app_iff. right. now left. }
  destruct (lastWithKey_Some k allEvents Hk) as (last & Hlast).
  pose proof Hlast as Hsplit.
  apply lastWithKey_split in Hsplit as (l1 & l2 & Hl & Hkl & Hl2).
  assert (Hin : In last (uniqueEventsOf allEvents))
    by (apply uniqueEventsOf_last; now rewrite Hkl).
  pose proof (uniqueEventsOf_NoDup allEvents) as Hnd.
  assert (Hf : filter (hasKey k) (uniqueEventsOf allEvents) = [last])
    by (rewrite <- Hkl; now apply filter_hasKey_NoDup).
  exists last, l1, l2.
  (* the place of the record among the records kept *)
  assert (Hkeys : map keyOf (uniqueEventsOf allEvents)
                  = firstOccurrences (map keyOf (before ++ first :: after)))
    by (rewrite <- Hall; apply uniqueEventsOf_keys).
  rewrite map_app, firstOccurrences_app in Hkeys.
  cbn [map firstOccurrences filter] in Hkeys. fold k in Hkeys.
  rewrite existsb_eqb_false in Hkeys
    by (rewrite Forall_map; exact Hbefore).
  cbn [negb] in Hkeys.
  apply map_eq_app in Hkeys as (u1 & u2' & Hu & Hu1 & Hu2).
  destruct u2' as [|e' u2]; [discriminate|]. injection Hu2 as He' _.
  assert (e' = last).
  { apply (NoDup_same_key (uniqueEventsOf allEvents)); auto.
    - rewrite Hu, in_app_iff. right. now left.
    - congruence. }
  subst e'. exists u1, u2. repeat split; auto.
  rewrite <- Hkl. apply filter_hasKey_NoDup.
  - eapply Permutation_NoDup; [|exact Hnd].
    apply Permutation_map. symmetry. apply Array_sort_perm.
  - eapply Permutation_in; [symmetry; apply Array_sort_perm | assumption].
Qed.

Lemma sample_valid :
  Forall validDate ([sampleFirst] ++ [sampleOther] ++ [sampleLast]).
Proof. repeat constructor; discriminate. Qed.

(** The theorem at three records, the first and the third with one key: the
    third record is kept, in the place of the first. *)
Lemma dedup_first_position_last_content_witness :
  exists unique,
    uniqueEvents ([sampleFirst] ++ [sampleOther] ++ [sampleLast])
    = Normal unique /\
    exists last u1 u2,
      unique = u1 ++ last :: u2 /\
      map keyOf u1 = firstOccurrences (map keyOf []) /\
      filter (hasKey (keyOf sampleFirst)) unique = [last].
Proof.
  destruct (dedup_first_position_last_content
              [sampleFirst] [sampleOther] [sampleLast] sample_valid)
    as (unique & Hu & _ & _ & H).
  exists unique. split; [exact Hu|].
  destruct (H [] sampleFirst [sampleOther; sampleLast] eq_refl (Forall_nil _))
    as (last & _ & _ & u1 & u2 & _ & _ & _ & H1 & H2 & H3 & _).
  exists last, u1, u2. auto.
Defined.

Example dedup_sample :
  uniqueEvents [sampleFirst; sampleOther; sampleLast]
  = Normal [sampleLast; sampleOther].
Proof. reflexivity. Qed.

Lemma NoDup_map_compose {A B C} (f : A -> B) (g : B -> C) (l : list A) :
  NoDup (map (fun x => g (f x)) l) -> NoDup (map f l).
Proof.
  induction l as [|x l IH]; cbn; intros H; [constructor|].
  inversion H as [|? ? Hnotin Hnd]; subst. constructor; [|now apply IH].
  rewrite in_map_iff in *. intros (y & Hy & Hin). apply Hnotin.
  exists y. split; [now rewrite Hy | assumption].
Qed.

Lemma eventKey_of_triple e :
  eventKey e
  = (let '(t, iso, loc) := keyTriple e in
     iso <- iso ;;
     Normal (t ++ "|" ++ iso ++ "|" ++ template_opt loc)%string).
Proof. reflexivity. Qed.

Lemma sorted_unique_NoDup l :
  Forall validDate l ->
  NoDup (map eventKey (Array_sort byStartTime (uniqueEventsOf l))).
Proof.
  intros Hv.
  assert (Hs : Forall validDate (Array_sort byStartTime (uniqueEventsOf l))).
  { eapply Permutation_Forall; [symmetry; apply Array_sort_perm|].
    now apply uniqueEventsOf_Forall. }
  assert (Hnd : NoDup (map keyOf (Array_sort byStartTime (uniqueEventsOf l)))).
  { eapply Permutation_NoDup; [|apply (uniqueEventsOf_NoDup l)].
    apply Permutation_map. symmetry. apply Array_sort_perm. }
  revert Hs Hnd. generalize (Array_sort byStartTime (uniqueEventsOf l)) as out.
  induction out as [|e out IH]; cbn; intros Hs Hnd; [constructor|].
  inversion Hs as [|? ? He Hs']; inversion Hnd as [|? ? Hnotin Hnd']; subst.
  constructor; [|now apply IH].
  rewrite in_map_iff in *. intros (y & Hy & Hin). apply Hnotin.
  exists y. split; [|assumption].
  rewrite Forall_forall in Hs'.
  rewrite (eventKey_valid e He), (eventKey_valid y (Hs' y Hin)) in Hy.
  congruence.
Qed.

(** C5. No two records of the list [fetchAllEvents] returns have the same
    key, nor the same triple of title, start time in the Date Time String
    Format and location; this holds whatever the three scrapers returned. *)
Theorem output_keys_distinct :
  (forall p1 p2 p3,
      exists out,
        fetchAllEventsFrom p1 p2 p3 = Normal out /\
        NoDup (map eventKey out) /\ NoDup (map keyTriple out)) /\
  (forall LocalTZA clock1 clock2 clock3,
      exists out,
        fetchAllEvents LocalTZA clock1 clock2 clock3 = Normal out /\
        NoDup (map eventKey out) /\ NoDup (map keyTriple out)).
Proof.
  assert (H : forall p1 p2 p3,
             exists out,
               fetchAllEventsFrom p1 p2 p3 = Normal out /\
               NoDup (map eventKey out) /\ NoDup (map keyTriple out)).
  { intros p1 p2 p3.
    destruct (fetchAllEventsFrom_cases p1 p2 p3)
      as [(fm & ch & co & _ & _ & _ & Hv & ->) | ->].
    - eexists. split; [reflexivity|].
      pose proof (sorted_unique_NoDup _ Hv) as Hnd. split; [assumption|].
      apply (NoDup_map_compose keyTriple
               (fun '(t, iso, loc) =>
                  iso <- iso ;;
                  Normal (t ++ "|" ++ iso ++ "|" ++ template_opt loc)%string)).
      exact Hnd.
    - exists []. repeat split; constructor. }
  split; [exact H|]. intros. apply H.
Qed.

(** C3. The list [fetchAllEvents] returns is sorted by start time, each
    record no later than the next one, and the records with one start time
    are in the order the deduplication step left them in. *)
Theorem output_sorted_stable :
  (forall p1 p2 p3,
      exists out,
        fetchAllEventsFrom p1 p2 p3 = Normal out /\
        Sorted timeLe out /\ StronglySorted timeLe out /\
        forall fm ch co unique,
          p1 = Normal fm -> p2 = Normal ch -> p3 = Normal co ->
          uniqueEvents (fm ++ ch ++ co) = Normal unique ->
          Permutation unique out /\
          forall t, filter (startsAt t) out = filter (startsAt t) unique) /\
  (forall LocalTZA clock1 clock2 clock3,
      exists unique out,
        uniqueEvents (farmersMarketEvents LocalTZA clock1
                      ++ churchEvents LocalTZA clock2
                      ++ communityEventsAt LocalTZA clock3) = Normal unique /\
        fetchAllEvents LocalTZA clock1 clock2 clock3 = Normal out /\
        Sorted timeLe out /\
        Permutation unique out /\
        forall t, filter (startsAt t) out = filter (startsAt t) unique).
Proof.
  assert (H : forall p1 p2 p3,
      exists out,
        fetchAllEventsFrom p1 p2 p3 = Normal out /\
        Sorted timeLe out /\ StronglySorted timeLe out /\
        forall fm ch co unique,
          p1 = Normal fm -> p2 = Normal ch -> p3 = Normal co ->
          uniqueEvents (fm ++ ch ++ co) = Normal unique ->
          Permutation unique out /\
          forall t, filter (startsAt t) out = filter (startsAt t) unique).
  { intros p1 p2 p3.
    destruct (fetchAllEventsFrom_cases p1 p2 p3)
      as [(fm & ch & co & -> & -> & -> & Hv & E) | E].
    - rewrite E. eexists. split; [reflexivity|].
      pose proof (uniqueEventsOf_Forall _ _ Hv) as Hu.
      pose proof (Array_sort_sorted _ Hu) as Hs.
      split; [now apply StronglySorted_Sorted|]. split; [assumption|].
      intros fm' ch' co' unique [= <-] [= <-] [= <-].
      rewrite (uniqueEvents_valid _ Hv). intros [= <-]. split.
      + symmetry. apply Array_sort_perm.
      + intros t. now apply Array_sort_stable.
    - rewrite E. exists []. split; [reflexivity|].
      split; [constructor|]. split; [constructor|].
      intros fm ch co unique -> -> -> Hu. revert E.
      unfold fetchAllEventsFrom. cbn [bind]. rewrite Hu. cbn.
      intros [= E]. assert (Hl : List.length unique = 0%nat).
      { rewrite <- (Array_sort_length byStartTime), E. reflexivity. }
      destruct unique; [|discriminate]. split; [constructor | reflexivity]. }
  split; [exact H|].
  intros LocalTZA c1 c2 c3.
  destruct (H (scrapeLexingtonFarmersMarket LocalTZA c1)
              (scrapeChurchEvents LocalTZA c2)
              (scrapeYardSalesAndCommunityEvents LocalTZA c3))
    as (out & Hout & Hs & _ & Hst).
  pose proof (scraped_valid LocalTZA c1 c2 c3) as Hv.
  set (allEvents := farmersMarketEvents LocalTZA c1 ++ churchEvents LocalTZA c2
                    ++ communityEventsAt LocalTZA c3) in *.
  exists (uniqueEventsOf allEvents), out.
  split; [now apply uniqueEvents_valid|].
  split; [exact Hout|]. split; [exact Hs|].
  apply (Hst (farmersMarketEvents LocalTZA c1) (churchEvents LocalTZA c2)
             (communityEventsAt LocalTZA c3)).
  - apply scrapeLexingtonFarmersMarket_eq.
  - apply scrapeChurchEvents_eq.
  - apply scrapeYardSalesAndCommunityEvents_eq.
  - now apply uniqueEvents_valid.
Qed.


(** ** Claims on the scrapers, whatever the time zone *)

(** C2. Whatever the current moment, every record of [fetchAllEvents] and
    of each of the three scrapers starts strictly after it.  The aggregator
    lets each scraper read the clock; no reading is earlier than the moment
    of the call. *)
Theorem future_only (LocalTZA : Z -> bool -> Z) (now : Z) :
  (exists l, scrapeLexingtonFarmersMarket LocalTZA now = Normal l /\
             Forall (startsAfter now) l) /\
  (exists l, scrapeChurchEvents LocalTZA now = Normal l /\
             Forall (startsAfter now) l) /\
  (exists l, scrapeYardSalesAndCommunityEvents LocalTZA now = Normal l /\
             Forall (startsAfter now) l) /\
  (forall clock1 clock2 clock3,
      now <= clock1 -> now <= clock2 -> now <= clock3 ->
      exists out, fetchAllEvents LocalTZA clock1 clock2 clock3 = Normal out /\
                  Forall (startsAfter now) out).
Proof.
  split; [|split; [|split]].
  - eexists. split; [apply scrapeLexingtonFarmersMarket_eq|].
    apply farmersMarketEvents_after. lia.
  - eexists. split; [apply scrapeChurchEvents_eq|].
    apply churchEvents_after. lia.
  - eexists. split; [apply scrapeYardSalesAndCommunityEvents_eq|].
    apply communityEventsAt_after. lia.
  - intros c1 c2 c3 H1 H2 H3. eexists. split; [apply fetchAllEvents_eq|].
    eapply Permutation_Forall; [symmetry; apply Array_sort_perm|].
    apply uniqueEventsOf_Forall. rewrite !Forall_app. repeat split.
    + now apply farmersMarketEvents_after.
    + now apply churchEvents_after.
    + now apply communityEventsAt_after.
Qed.

Lemma eventsOfChurch_title LocalTZA clock church :
  Forall (fun e => title e = churchTitle church)
         (eventsOfChurch LocalTZA clock church).
Proof.
  apply Forall_forall. intros e He.
  apply pushed_after in He as (week & _ & -> & _). reflexivity.
Qed.

Lemma recordsOfChurch_own church l :
  (List.length (recordsOfChurch church l) <= List.length l)%nat.
Proof. apply filter_length_le. Qed.

Lemma recordsOfChurch_other church l t :
  t <> churchTitle church -> Forall (fun e => title e = t) l ->
  recordsOfChurch church l = [].
Proof.
  intros Ht. induction 1 as [|e l He _ IH]; cbn; [reflexivity|].
  rewrite He. apply String.eqb_neq in Ht. now rewrite Ht.
Qed.

(** C7. Whatever the current moment, the farmers market scraper returns at
    most 4 records, and the church scraper at most 8 records for each of its
    two churches: at most 16 records. *)
Theorem occurrence_bounds (LocalTZA : Z -> bool -> Z) (now : Z) :
  (forall church events,
      (List.length (churchWeeks LocalTZA (Date_now now) church events)
       <= List.length events + 8)%nat) /\
  exists fm ch,
    scrapeLexingtonFarmersMarket LocalTZA now = Normal fm /\
    (List.length fm <= 4)%nat /\
    scrapeChurchEvents LocalTZA now = Normal ch /\
    (List.length ch <= 16)%nat /\
    forall church, In church churches ->
                   (List.length (recordsOfChurch church ch) <= 8)%nat.
Proof.
  assert (H8 : forall church,
             (List.length (eventsOfChurch LocalTZA now church) <= 8)%nat).
  { intros church. unfold eventsOfChurch.
    etransitivity; [apply pushed_length | reflexivity]. }
  split.
  - intros church events. rewrite churchWeeks_eq, length_app.
    specialize (H8 church). lia.
  - exists (farmersMarketEvents LocalTZA now), (churchEvents LocalTZA now).
    split; [apply scrapeLexingtonFarmersMarket_eq|].
    split; [etransitivity; [apply pushed_length | reflexivity]|].
    split; [apply scrapeChurchEvents_eq|].
    unfold churchEvents, churches. cbn [flat_map]. rewrite app_nil_r.
    split.
    + rewrite length_app.
      pose proof (H8 southland). pose proof (H8 firstPresbyterian). lia.
    + pose proof (eventsOfChurch_title LocalTZA now southland) as T1.
      pose proof (eventsOfChurch_title LocalTZA now firstPresbyterian) as T2.
      assert (Hne : churchTitle firstPresbyterian <> churchTitle southland)
        by (vm_compute; discriminate).
      intros church [<- | [<- | []]]; unfold recordsOfChurch;
        rewrite filter_app, length_app;
        fold (recordsOfChurch southland
                (eventsOfChurch LocalTZA now southland));
        fold (recordsOfChurch southland
                (eventsOfChurch LocalTZA now firstPresbyterian));
        fold (recordsOfChurch firstPresbyterian
                (eventsOfChurch LocalTZA now southland));
        fold (recordsOfChurch firstPresbyterian
                (eventsOfChurch LocalTZA now firstPresbyterian)).
      * rewrite (recordsOfChurch_other southland _ _ Hne T2).
        pose proof (recordsOfChurch_own southland
                      (eventsOfChurch LocalTZA now southland)).
        pose proof (H8 southland). cbn [List.length]. lia.
      * rewrite (recordsOfChurch_other firstPresbyterian _ _
                   (not_eq_sym Hne) T1).
        pose proof (recordsOfChurch_own firstPresbyterian
                      (eventsOfChurch LocalTZA now firstPresbyterian)).
        pose proof (H8 firstPresbyterian). cbn [List.length]. lia.
Qed.


(** ** Claim on failures *)

Lemma or_empty_total body :
  exists l, or_empty body = Normal l /\ (forall x, body = Throw x -> l = []).
Proof.
  destruct body as [l|x]; cbn.
  - exists l. split; [reflexivity | discriminate].
  - exists []. split; reflexivity.
Qed.

(** C6. No scraper and no call of [fetchAllEvents] ends in an exception.  A
    scraper whose body throws returns the empty list; so does the
    aggregator when a promise is rejected or when building the keys
    throws; and a scraper that failed leaves the records of the two others
    as they are. *)
Theorem never_throws :
  (forall body,
      exists l, or_empty body = Normal l /\
                (forall x, body = Throw x -> l = [])) /\
  (forall LocalTZA clock,
      (exists l, scrapeLexingtonFarmersMarket LocalTZA clock = Normal l) /\
      (exists l, scrapeChurchEvents LocalTZA clock = Normal l) /\
      (exists l, scrapeYardSalesAndCommunityEvents LocalTZA clock = Normal l)) /\
  (forall p1 p2 p3, exists out, fetchAllEventsFrom p1 p2 p3 = Normal out) /\
  (forall LocalTZA clock1 clock2 clock3,
      exists out, fetchAllEvents LocalTZA clock1 clock2 clock3 = Normal out) /\
  (forall p1 p2 p3 x,
      p1 = Throw x \/ p2 = Throw x \/ p3 = Throw x ->
      fetchAllEventsFrom p1 p2 p3 = Normal []) /\
  (forall fm ch co,
      Exists (fun e => startTime e = None) (fm ++ ch ++ co) ->
      fetchAllEventsFrom (Normal fm) (Normal ch) (Normal co) = Normal []) /\
  (forall x l1 l2,
      Forall validDate (l1 ++ l2) ->
      let sorted := Normal (Array_sort byStartTime (uniqueEventsOf (l1 ++ l2))) in
      fetchAllEventsFrom (or_empty (Throw x)) (or_empty (Normal l1))
                         (or_empty (Normal l2)) = sorted /\
      fetchAllEventsFrom (or_empty (Normal l1)) (or_empty (Throw x))
                         (or_empty (Normal l2)) = sorted /\
      fetchAllEventsFrom (or_empty (Normal l1)) (or_empty (Normal l2))
                         (or_empty (Throw x)) = sorted).
Proof.
  split; [exact or_empty_total|].
  split.
  { intros LocalTZA clock. repeat split; eexists.
    - apply scrapeLexingtonFarmersMarket_eq.
    - apply scrapeChurchEvents_eq.
    - apply scrapeYardSalesAndCommunityEvents_eq. }
  split.
  { intros p1 p2 p3.
    destruct (fetchAllEventsFrom_cases p1 p2 p3)
      as [(fm & ch & co & _ & _ & _ & _ & ->) | ->]; eauto. }
  split; [intros; eexists; apply fetchAllEvents_eq|].
  split; [exact fetchAllEventsFrom_rejected|].
  split; [exact fetchAllEventsFrom_invalid|].
  intros x l1 l2 Hv sorted. subst sorted. cbn [or_empty try_catch].
  repeat split.
  - now rewrite (fetchAllEventsFrom_valid [] l1 l2 Hv).
  - now rewrite (fetchAllEventsFrom_valid l1 [] l2 Hv).
  - rewrite (fetchAllEventsFrom_valid l1 l2 []); rewrite app_nil_r; auto.
Qed.


(** ** Dates in a zone whose Saturdays are quiet *)

Section QuietZone.

Variable LocalTZA : Z -> bool -> Z.
Hypothesis shift_bound : tz_shift_bound LocalTZA.

Local Abbreviation LT := (LocalTime LocalTZA).

(** [d.setDate(d.getDate() + n); d.setHours(h, 0, 0, 0)] from the clock
    reading, when the day it lands on is quiet: the local time is [h]
    o'clock on that day, and the offset of that day is the offset of the
    records. *)
Lemma move_to_quiet_day clock n h :
  clock_in_range clock -> 0 <= n <= 27 -> 0 <= h <= 23 ->
  quiet_day LocalTZA (Day (LT clock) + n) ->
  exists c e,
    Date_setHours LocalTZA (addDays LocalTZA (TimeClip clock) n) h 0 0 0
    = Some e /\
    LT e = MakeDate (Day (LT clock) + n) (MakeTime h 0 0 0) /\
    e = LT e - c /\
    LocalTZA clock true - c <= 8 * msPerHour /\
    c - LocalTZA clock true <= 8 * msPerHour /\
    (n = 0 -> LocalTZA clock true = c).
Proof.
  intros Hclock Hn Hh (c & Hlocal & Hutc & Hback).
  exists c.
  set (L := LT clock) in *. set (D := Day L + n) in *.
  set (a := LocalTZA clock true).
  assert (Ha1 : a - c <= 8 * msPerHour).
  { rewrite <- (Hlocal (D * msPerDay)); [apply shift_bound|].
    unfold Day; unfold_ms; zdiv. }
  assert (Ha2 : c - a <= 8 * msPerHour).
  { rewrite <- (Hlocal (D * msPerDay)); [apply shift_bound|].
    unfold Day; unfold_ms; zdiv. }
  pose proof (Day_TimeWithinDay L) as HL.
  pose proof (TimeWithinDay_range L) as HT.
  assert (EL : L = clock + a) by reflexivity.
  unfold clock_in_range in Hclock.
  (* setDate *)
  set (x := L + n * msPerDay).
  assert (Dx : Day x = D) by (unfold x, D; apply Day_add_days).
  assert (Ex : UTC LocalTZA x = x - c) by (unfold UTC; now rewrite Hlocal).
  assert (Rx : Z.abs (x - c) <= maxTime) by (unfold x; unfold_ms; lia).
  assert (Lx : LT (x - c) = x).
  { unfold LT, LocalTime. rewrite Hback; [lia|].
    now replace (x - c + c) with x by lia. }
  (* setHours *)
  set (tl := MakeDate D (MakeTime h 0 0 0)).
  assert (Dtl : Day tl = D).
  { unfold tl. apply Day_MakeDate. unfold MakeTime; unfold_ms; lia. }
  assert (Etl : UTC LocalTZA tl = tl - c) by (unfold UTC; now rewrite Hlocal).
  assert (Rtl : Z.abs (tl - c) <= maxTime).
  { unfold tl, MakeDate, MakeTime, D. unfold_ms. lia. }
  assert (Ltl : LT (tl - c) = tl).
  { unfold LT, LocalTime. rewrite Hback; [lia|].
    now replace (tl - c + c) with tl by lia. }
  exists (tl - c).
  assert (Hset : Date_setHours LocalTZA (addDays LocalTZA (TimeClip clock) n)
                   h 0 0 0 = Some (tl - c)).
  { rewrite (TimeClip_in_range clock) by (unfold_ms; lia).
    unfold addDays. fold L. fold x. rewrite Ex, (TimeClip_in_range _ Rx).
    unfold Date_setHours. cbv zeta. fold (LT (x - c)). rewrite Lx, Dx.
    fold tl. rewrite Etl. now apply TimeClip_in_range. }
  split; [exact Hset|]. rewrite Ltl.
  split; [reflexivity|]. split; [reflexivity|].
  split; [exact Ha1|]. split; [exact Ha2|].
  intros ->. apply (Hutc clock). unfold D. fold L. lia.
Qed.

Hypothesis quiet : quiet_saturdays LocalTZA.

Lemma daysUntil_range target day :
  0 <= target <= 6 -> 0 <= day <= 6 ->
  0 <= daysUntil target day <= 6 /\
  (day + daysUntil target day - target) mod 7 = 0.
Proof. unfold daysUntil. intros; zdiv. Qed.



End QuietZone.


(** ** Claims on the farmers market *)

Lemma HourFromTime_TimeWithinDay t h :
  h <= HourFromTime t <-> h * msPerHour <= TimeWithinDay t.
Proof. unfold HourFromTime, TimeWithinDay; unfold_ms; split; intros; zdiv. Qed.

Lemma local_fields_MakeDate D h :
  0 <= h <= 23 ->
  let t := MakeDate D (MakeTime h 0 0 0) in
  Day t = D /\ WeekDay t = (D + 4) mod 7 /\ HourFromTime t = h /\
  MinFromTime t = 0 /\ SecFromTime t = 0 /\ msFromTime t = 0.
Proof.
  intros Hh t. subst t.
  unfold WeekDay, Day, HourFromTime, MinFromTime, SecFromTime, msFromTime,
    MakeDate, MakeTime. unfold_ms. repeat split; zdiv.
Qed.



Lemma zoneEST_shift_bound : tz_shift_bound zoneEST.
Proof. intros t t' b b'. unfold zoneEST; unfold_ms; lia. Qed.

Lemma zoneEST_quiet : quiet_saturdays zoneEST.
Proof. intros D _. exists (-5 * msPerHour). repeat split. Qed.

Section FarmersMarket.

Variable LocalTZA : Z -> bool -> Z.
Hypothesis shift_bound : tz_shift_bound LocalTZA.
Hypothesis quiet : quiet_saturdays LocalTZA.

Local Abbreviation LT := (LocalTime LocalTZA).





End FarmersMarket.


Lemma zoneLexington_shift_bound : tz_shift_bound zoneLexington.
Proof.
  intros t t' b b'. unfold zoneLexington.
  destruct b, b'; repeat destruct (_ <? _); unfold_ms; lia.
Qed.




Example farmers_market_across_clock_change :
  option_map (map startTime)
    (match scrapeLexingtonFarmersMarket zoneLexington lexington_monday_9am with
     | Normal l => Some l
     | Throw _ => None
     end)
  = Some [Some 1709989200000; Some 1710590400000;
          Some 1711195200000; Some 1711800000000].
Proof. vm_compute. reflexivity. Qed.

Example farmers_market_on_monday :
  option_map (map startTime)
    (match scrapeLexingtonFarmersMarket zoneUTC monday_9am with
     | Normal l => Some l
     | Throw _ => None
     end)
  = Some [Some 1704528000000; Some 1705132800000;
          Some 1705737600000; Some 1706342400000].
Proof. vm_compute. reflexivity. Qed.



Example farmers_market_on_saturday :
  option_map (map startTime)
    (match scrapeLexingtonFarmersMarket zoneUTC saturday_8am with
     | Normal l => Some l
     | Throw _ => None
     end)
  = Some [Some 1705132800000; Some 1705737600000; Some 1706342400000]
  /\
  option_map (map startTime)
    (match scrapeLexingtonFarmersMarket zoneUTC (saturday_8am - 1) with
     | Normal l => Some l
     | Throw _ => None
     end)
  = Some [Some 1704528000000; Some 1705132800000;
          Some 1705737600000; Some 1706342400000].
Proof. split; vm_compute; reflexivity. Qed.


(** ** Claim on the one-off community events *)

Lemma pushed_app {A} (date : A -> JSDate) record now (l1 l2 : list A) :
  pushed date record now (l1 ++ l2)
  = pushed date record now l1 ++ pushed date record now l2.
Proof. unfold pushed. now rewrite filter_app, map_app. Qed.

Lemma communityBodyOf_eq LocalTZA templates clock :
  communityBodyOf LocalTZA templates clock
  = Normal (pushed (communityDate LocalTZA (Date_now clock)) communityEvent
                   (Date_now clock) templates).
Proof. unfold communityBodyOf; cbv zeta. now rewrite push_loop. Qed.

Lemma filter_none {A} (p : A -> bool) (l : list A) :
  (forall x, In x l -> p x = false) -> filter p l = [].
Proof.
  induction l as [|x l IH]; cbn; intros H; [reflexivity|].
  rewrite (H x) by now left. apply IH. intros y Hy. apply H. now right.
Qed.

Section Community.

Variable LocalTZA : Z -> bool -> Z.
Hypothesis shift_bound : tz_shift_bound LocalTZA.
Hypothesis quiet : quiet_saturdays LocalTZA.

Local Abbreviation LT := (LocalTime LocalTZA).



End Community.



Example community_on_tuesday :
  option_map (map (fun e => (title e, startTime e)))
    (match scrapeYardSalesAndCommunityEvents zoneUTC tuesday_noon with
     | Normal l => Some l
     | Throw _ => None
     end)
  = Some [("Community Cleanup Day at Shriners Park", Some 1704790800000);
          ("East Side Neighborhood Yard Sale", Some 1705392000000);
          ("Paint & Sip Night", Some 1704567600000)].
Proof. vm_compute. reflexivity. Qed.


(** ** Strings and keys *)

Lemma string_app_inv_length (a b x y : string) :
  String.length a = String.length b ->
  (a ++ x)%string = (b ++ y)%string -> a = b /\ x = y.
Proof.
  revert b. induction a as [|c a IH]; intros [|c' b]; cbn;
    try discriminate.
  - auto.
  - intros [= Hl] [= -> Hs]. destruct (IH b Hl Hs) as [-> ->]. auto.
Qed.

Lemma string_cons_inv c c' (s s' : string) :
  String c s = String c' s' -> c = c' /\ s = s'.
Proof. intros [= -> ->]. auto. Qed.

Lemma string_length_app (a b : string) :
  String.length (a ++ b)%string = (String.length a + String.length b)%nat.
Proof. induction a; cbn; auto. Qed.

Lemma barFree_app a b : barFree (a ++ b)%string = barFree a && barFree b.
Proof.
  induction a as [|c a IH]; cbn; [reflexivity|].
  now rewrite IH, andb_assoc.
Qed.

(** A key splits in one way at its first separator. *)
Lemma split_at_bar a b x y :
  barFree a = true -> barFree b = true ->
  (a ++ "|" ++ x)%string = (b ++ "|" ++ y)%string -> a = b /\ x = y.
Proof.
  revert b. induction a as [|c a IH]; intros [|c' b]; cbn.
  - intros _ _ [= ->]. auto.
  - intros _ Hb [= <- _]. discriminate.
  - intros Ha _ [= -> _]. discriminate.
  - intros Ha Hb [= -> Hs].
    apply andb_true_iff in Ha as [_ Ha]. apply andb_true_iff in Hb as [_ Hb].
    destruct (IH b Ha Hb Hs) as [-> ->]. auto.
Qed.

Lemma digitChar_inj a b :
  0 <= a <= 9 -> 0 <= b <= 9 -> digitChar a = digitChar b -> a = b.
Proof.
  unfold digitChar. intros Ha Hb H.
  apply (f_equal nat_of_ascii) in H.
  rewrite !nat_ascii_embedding in H by lia. lia.
Qed.

Lemma digitChar_not_bar d : 0 <= d <= 9 -> Ascii.eqb (digitChar d) "|" = false.
Proof.
  intros Hd. apply Ascii.eqb_neq. intros H.
  apply (f_equal nat_of_ascii) in H. unfold digitChar in H.
  rewrite nat_ascii_embedding in H by lia. cbn in H. lia.
Qed.

Lemma padDigits_length w n : String.length (padDigits w n) = w.
Proof. induction w; cbn; auto. Qed.

Lemma padDigits_barFree w n : barFree (padDigits w n) = true.
Proof.
  induction w as [|w IH]; cbn [padDigits barFree]; [reflexivity|].
  rewrite IH, digitChar_not_bar; [reflexivity|]. zdiv.
Qed.

Lemma padDigits_inj_mod w n m :
  padDigits w n = padDigits w m ->
  n mod 10 ^ Z.of_nat w = m mod 10 ^ Z.of_nat w.
Proof.
  induction w as [|w IH]; cbn [padDigits].
  - intros _. now rewrite !Z.mod_1_r.
  - intros [= Hd Ht]. apply IH in Ht.
    apply digitChar_inj in Hd; [|zdiv|zdiv].
    assert (Hpos : 0 < 10 ^ Z.of_nat w) by (apply Z.pow_pos_nonneg; lia).
    replace (10 ^ Z.of_nat (S w)) with (10 ^ Z.of_nat w * 10)
      by (rewrite Nat2Z.inj_succ, Z.pow_succ_r; lia).
    rewrite !Z.rem_mul_r by lia. now rewrite Ht, Hd.
Qed.

Lemma padDigits_inj w n m :
  0 <= n < 10 ^ Z.of_nat w -> 0 <= m < 10 ^ Z.of_nat w ->
  padDigits w n = padDigits w m -> n = m.
Proof.
  intros Hn Hm H. apply padDigits_inj_mod in H.
  now rewrite !Z.mod_small in H.
Qed.

Lemma yearString_length y :
  String.length (yearString y)
  = if (0 <=? y) && (y <=? 9999) then 4%nat else 7%nat.
Proof.
  unfold yearString. destruct ((0 <=? y) && (y <=? 9999)).
  - apply padDigits_length.
  - destruct (0 <=? y); cbn [String.append String.length];
      now rewrite padDigits_length.
Qed.

Lemma yearString_barFree y : barFree (yearString y) = true.
Proof.
  unfold yearString. destruct ((0 <=? y) && (y <=? 9999)).
  - apply padDigits_barFree.
  - rewrite barFree_app, padDigits_barFree. now destruct (0 <=? y).
Qed.

Lemma yearString_inj y y' :
  Z.abs y < 1000000 -> Z.abs y' < 1000000 ->
  yearString y = yearString y' -> y = y'.
Proof.
  intros Hy Hy' H. pose proof (f_equal String.length H) as Hl.
  rewrite !yearString_length in Hl. unfold yearString in H.
  destruct ((0 <=? y) && (y <=? 9999)) eqn:E, ((0 <=? y') && (y' <=? 9999)) eqn:E';
    try discriminate.
  - apply andb_true_iff in E as [E1 E2], E' as [E1' E2'].
    apply padDigits_inj in H; [assumption| |]; change (10 ^ Z.of_nat 4) with 10000;
      lia.
  - apply andb_false_iff in E, E'.
    destruct (Z.leb_spec 0 y), (Z.leb_spec 0 y');
      cbn [String.append] in H; try discriminate H;
      apply string_cons_inv in H as [_ H];
      (apply padDigits_inj in H;
       [lia | change (10 ^ Z.of_nat 6) with 1000000; lia ..]).
Qed.

(** The printed calendar fields determine the time value. *)
Lemma time_of_fields t t' :
  YearFromTime t = YearFromTime t' ->
  MonthFromTime t = MonthFromTime t' ->
  DateFromTime t = DateFromTime t' ->
  HourFromTime t = HourFromTime t' ->
  MinFromTime t = MinFromTime t' ->
  SecFromTime t = SecFromTime t' ->
  msFromTime t = msFromTime t' ->
  t = t'.
Proof.
  intros HY HM HD Hh Hm Hs Hms.
  assert (Hday : Day t = Day t').
  { rewrite !DateFromTime_monthStart in HD.
    unfold InLeapYear, DayWithinYear in HD. rewrite HY, HM in HD. lia. }
  rewrite (Day_TimeWithinDay t), (Day_TimeWithinDay t'), Hday. f_equal.
  revert Hh Hm Hs Hms.
  unfold HourFromTime, MinFromTime, SecFromTime, msFromTime, TimeWithinDay.
  unfold_ms. zdiv.
Qed.

Lemma YearFromTime_bound t : Z.abs t <= maxTime -> Z.abs (YearFromTime t) < 1000000.
Proof.
  intros Ht. unfold YearFromTime, Day. cbv zeta. unfold_ms.
  repeat match goal with
         | |- context [if ?b then _ else _] => destruct b
         end; zdiv.
Qed.

Lemma ISODateString_barFree t : barFree (ISODateString t) = true.
Proof.
  unfold ISODateString.
  repeat (rewrite barFree_app || rewrite padDigits_barFree
          || rewrite yearString_barFree).
  reflexivity.
Qed.

Lemma ISODateString_inj t t' :
  Z.abs t <= maxTime -> Z.abs t' <= maxTime ->
  ISODateString t = ISODateString t' -> t = t'.
Proof.
  intros Ht Ht' H.
  pose proof (YearFromTime_bound t Ht) as HY.
  pose proof (YearFromTime_bound t' Ht') as HY'.
  pose proof (MonthFromTime_range t) as HM.
  pose proof (MonthFromTime_range t') as HM'.
  pose proof (DateFromTime_range t) as HD.
  pose proof (DateFromTime_range t') as HD'.
  unfold ISODateString in H.
  assert (Hlen : String.length (yearString (YearFromTime t))
                 = String.length (yearString (YearFromTime t'))).
  { apply (f_equal String.length) in H.
    rewrite !string_length_app, !padDigits_length in H. cbn in H. lia. }
  apply string_app_inv_length in H as [Hy H]; [|exact Hlen].
  apply yearString_inj in Hy; [|assumption|assumption].
  cbn [String.append] in H.
  apply string_cons_inv in H as [_ H].
  apply string_app_inv_length in H as [Hmo H];
    [|now rewrite !padDigits_length].
  cbn [String.append] in H. apply string_cons_inv in H as [_ H].
  apply string_app_inv_length in H as [Hda H];
    [|now rewrite !padDigits_length].
  cbn [String.append] in H. apply string_cons_inv in H as [_ H].
  apply string_app_inv_length in H as [Hho H];
    [|now rewrite !padDigits_length].
  cbn [String.append] in H. apply string_cons_inv in H as [_ H].
  apply string_app_inv_length in H as [Hmi H];
    [|now rewrite !padDigits_length].
  cbn [String.append] in H. apply string_cons_inv in H as [_ H].
  apply string_app_inv_length in H as [Hse H];
    [|now rewrite !padDigits_length].
  cbn [String.append] in H. apply string_cons_inv in H as [_ H].
  apply string_app_inv_length in H as [Hms _];
    [|now rewrite !padDigits_length].
  apply padDigits_inj in Hmo, Hda, Hho, Hmi, Hse, Hms;
    try (change (10 ^ Z.of_nat 2) with 100);
    try (change (10 ^ Z.of_nat 3) with 1000);
    try lia;
    try (unfold HourFromTime, MinFromTime, SecFromTime, msFromTime;
         unfold_ms; zdiv).
  apply time_of_fields; auto. lia.
Qed.

Lemma keyOf_inj e1 e2 :
  barFree (title e1) = true -> barFree (title e2) = true ->
  timeInRange e1 -> timeInRange e2 ->
  keyOf e1 = keyOf e2 ->
  title e1 = title e2 /\ startTime e1 = startTime e2.
Proof.
  intros B1 B2 (t1 & E1 & R1) (t2 & E2 & R2).
  unfold keyOf, eventKey. rewrite E1, E2. cbn [Date_toISOString bind].
  intros H. apply split_at_bar in H as [Ht H]; [|assumption|assumption].
  apply split_at_bar in H as [Hi _]; [|apply ISODateString_barFree ..].
  apply ISODateString_inj in Hi; [|assumption|assumption].
  split; congruence.
Qed.

Lemma NoDup_map_finer {A B C} (f : A -> B) (g : A -> C) (l : list A) :
  (forall x y, In x l -> In y l -> f x = f y -> g x = g y) ->
  NoDup (map g l) -> NoDup (map f l).
Proof.
  induction l as [|x l IH]; cbn; intros Hfg Hnd; [constructor|].
  inversion Hnd as [|? ? Hnotin Hnd']; subst. constructor.
  - rewrite in_map_iff in *. intros (y & Hy & Hin). apply Hnotin.
    exists y. split; [|assumption]. symmetry. apply Hfg; auto.
  - apply IH; auto.
Qed.

(** ** Distinct start times in a zone of bounded shifts *)

Lemma TimeClip_range t e : TimeClip t = Some e -> Z.abs e <= maxTime.
Proof. intros H. apply TimeClip_Some in H as [-> H]. exact H. Qed.

Lemma Date_setHours_range LocalTZA d h e :
  Date_setHours LocalTZA d h 0 0 0 = Some e -> Z.abs e <= maxTime.
Proof. destruct d; [apply TimeClip_range | discriminate]. Qed.

Lemma addDays_range LocalTZA d n e :
  addDays LocalTZA d n = Some e -> Z.abs e <= maxTime.
Proof. destruct d; [apply TimeClip_range | discriminate]. Qed.

Lemma range_In n x : In x (range n) <-> 0 <= x < Z.of_nat n.
Proof.
  unfold range. rewrite in_map_iff. split.
  - intros (k & <- & Hk). apply in_seq in Hk. lia.
  - intros Hx. exists (Z.to_nat x). split; [lia|]. apply in_seq. lia.
Qed.

Lemma range_NoDup n : NoDup (range n).
Proof.
  unfold range. apply NoDup_map_NoDup_ForallPairs; [|apply seq_NoDup].
  intros x y _ _. apply Nat2Z.inj.
Qed.

(** The records a loop pushes have distinct start times when the dates of
    distinct items differ. *)
Lemma pushed_NoDup_times {A} (date : A -> JSDate) record now (items : list A) :
  (forall x d, startTime (record x d) = d) ->
  NoDup items ->
  (forall x y e, In x items -> In y items ->
                 date x = Some e -> date y = Some e -> x = y) ->
  NoDup (map startTime (pushed date record now items)).
Proof.
  intros Hrec Hnd Hinj. unfold pushed. rewrite map_map.
  rewrite (map_ext _ date) by (intros; apply Hrec).
  apply NoDup_map_NoDup_ForallPairs; [|now apply NoDup_filter].
  intros x y Hx Hy Heq.
  apply filter_In in Hx as [Hx Hgt]. apply filter_In in Hy as [Hy _].
  apply num_gt_spec in Hgt as (e & c & He & _).
  unfold Date_getTime in He. apply (Hinj x y e); congruence.
Qed.

Section BoundedShifts.

Variable LocalTZA : Z -> bool -> Z.
Hypothesis shift_bound : tz_shift_bound LocalTZA.

Local Abbreviation LT := (LocalTime LocalTZA).

(** Where [setDate] then [setHours] lands, within eight hours. *)
Lemma moved_date_bounds clock n h e :
  Date_setHours LocalTZA (addDays LocalTZA (TimeClip clock) n) h 0 0 0
  = Some e ->
  exists D,
    e = MakeDate D (MakeTime h 0 0 0)
        - LocalTZA (MakeDate D (MakeTime h 0 0 0)) false /\
    D * msPerDay <= LT clock + n * msPerDay + 8 * msPerHour /\
    LT clock + n * msPerDay - 8 * msPerHour < (D + 1) * msPerDay.
Proof.
  destruct (TimeClip clock) as [c|] eqn:Ec; [|discriminate].
  apply TimeClip_Some in Ec as [-> _]. unfold addDays.
  destruct (TimeClip _) as [v|] eqn:Ev; [|discriminate].
  apply TimeClip_Some in Ev as [-> _].
  unfold Date_setHours. cbv zeta. intros He.
  apply TimeClip_Some in He as [-> _].
  set (x := LT clock + n * msPerDay).
  fold (LT (UTC LocalTZA x)).
  exists (Day (LT (UTC LocalTZA x))). split; [reflexivity|].
  assert (Hv1 : LT (UTC LocalTZA x) <= x + 8 * msPerHour).
  { unfold LT, LocalTime, UTC.
    pose proof (shift_bound (x - LocalTZA x false) x true false). lia. }
  assert (Hv2 : x - 8 * msPerHour <= LT (UTC LocalTZA x)).
  { unfold LT, LocalTime, UTC.
    pose proof (shift_bound x (x - LocalTZA x false) false true). lia. }
  pose proof (Day_TimeWithinDay (LT (UTC LocalTZA x))) as HD.
  pose proof (TimeWithinDay_range (LT (UTC LocalTZA x))) as HT.
  unfold_ms. lia.
Qed.

Lemma moved_dates_increase clock n n' h e e' :
  n + 7 <= n' ->
  Date_setHours LocalTZA (addDays LocalTZA (TimeClip clock) n) h 0 0 0
  = Some e ->
  Date_setHours LocalTZA (addDays LocalTZA (TimeClip clock) n') h 0 0 0
  = Some e' ->
  e < e'.
Proof.
  intros Hn He He'.
  apply moved_date_bounds in He as (D & -> & H1 & H2).
  apply moved_date_bounds in He' as (D' & -> & H1' & H2').
  pose proof (shift_bound (MakeDate D' (MakeTime h 0 0 0))
                          (MakeDate D (MakeTime h 0 0 0)) false false).
  unfold MakeDate, MakeTime in *. unfold_ms. lia.
Qed.

Lemma farmersMarketDate_inj clock i j e :
  farmersMarketDate LocalTZA (Date_now clock) i = Some e ->
  farmersMarketDate LocalTZA (Date_now clock) j = Some e ->
  i = j.
Proof.
  rewrite !farmersMarketDate_closed. intros Hi Hj.
  destruct (Z.lt_trichotomy i j) as [Hlt | [Heq | Hgt]]; [|assumption|].
  - assert (e < e); [|lia].
    eapply moved_dates_increase; [|exact Hi|exact Hj]; lia.
  - assert (e < e); [|lia].
    eapply moved_dates_increase; [|exact Hj|exact Hi]; lia.
Qed.

Lemma churchWeekDate_inj eventDate w w' e :
  churchWeekDate LocalTZA eventDate w = Some e ->
  churchWeekDate LocalTZA eventDate w' = Some e ->
  w = w'.
Proof.
  rewrite !churchWeekDate_closed. unfold addDays.
  destruct (Date_new eventDate) as [u|]; [|discriminate].
  intros H H'. apply TimeClip_Some in H as [-> _].
  apply TimeClip_Some in H' as [H' _]. unfold UTC in H'.
  pose proof (shift_bound (LT u + w * 7 * msPerDay)
                          (LT u + w' * 7 * msPerDay) false false).
  pose proof (shift_bound (LT u + w' * 7 * msPerDay)
                          (LT u + w * 7 * msPerDay) false false).
  unfold_ms. lia.
Qed.

Lemma farmersMarketEvents_times clock :
  NoDup (map startTime (farmersMarketEvents LocalTZA clock)).
Proof.
  apply pushed_NoDup_times; [reflexivity | apply range_NoDup |].
  intros x y e _ _. apply farmersMarketDate_inj.
Qed.

Lemma eventsOfChurch_times clock church :
  NoDup (map startTime (eventsOfChurch LocalTZA clock church)).
Proof.
  apply pushed_NoDup_times; [reflexivity | apply range_NoDup |].
  intros x y e _ _. apply churchWeekDate_inj.
Qed.

End BoundedShifts.


(** ** Claim on the keys of the three scrapers *)

Lemma set_fresh {V} (m : @JSMap.t V) k v :
  ~ In k (JSMap.keys m) -> JSMap.set m k v = m ++ [(k, v)].
Proof.
  induction m as [|[k' v'] m IH]; cbn; intros Hk; [reflexivity|].
  destruct (String.eqb_spec k' k) as [->|_]; [tauto|].
  rewrite IH; [reflexivity | tauto].
Qed.

Lemma fold_set_NoDup {V} (entries : list (string * V)) (m : @JSMap.t V) :
  NoDup (JSMap.keys m ++ map fst entries) ->
  fold_left (fun m kv => JSMap.set m (fst kv) (snd kv)) entries m
  = m ++ entries.
Proof.
  revert m. induction entries as [|[k v] entries IH]; intros m Hnd; cbn.
  - now rewrite app_nil_r.
  - cbn in Hnd. pose proof (NoDup_remove_2 _ _ _ Hnd) as Hk.
    rewrite set_fresh by (intros Hin; apply Hk, in_or_app; now left).
    rewrite IH.
    + now rewrite <- app_assoc.
    + unfold JSMap.keys in *. rewrite map_app, <- app_assoc. exact Hnd.
Qed.

Lemma from_entries_NoDup {V} (entries : list (string * V)) :
  NoDup (map fst entries) -> JSMap.from_entries entries = entries.
Proof. intros H. unfold JSMap.from_entries. now rewrite fold_set_NoDup. Qed.

(** With distinct keys the deduplication step changes nothing. *)
Lemma uniqueEventsOf_id l : NoDup (map keyOf l) -> uniqueEventsOf l = l.
Proof.
  intros H. unfold uniqueEventsOf, JSMap.values.
  rewrite from_entries_NoDup.
  - rewrite map_map. cbn. apply map_id.
  - now rewrite map_map.
Qed.

Lemma NoDup_group_app t l ts rest :
  Forall (fun e => title e = t) l ->
  NoDup (map startTime l) ->
  Forall (fun e => In (title e) ts) rest ->
  ~ In t ts ->
  NoDup (map titleTime rest) ->
  NoDup (map titleTime (l ++ rest)).
Proof.
  intros Hl Hnd Hrest Ht Hnd'. rewrite map_app. apply NoDup_app.
  - apply (NoDup_map_compose titleTime snd). exact Hnd.
  - exact Hnd'.
  - intros a Ha Ha'. rewrite in_map_iff in Ha, Ha'.
    destruct Ha as (x & <- & Hx), Ha' as (y & Hy & Hy').
    rewrite Forall_forall in Hl, Hrest.
    specialize (Hl x Hx). specialize (Hrest y Hy').
    injection Hy as Hy _. apply Ht. congruence.
Qed.

Lemma pushed_timeInRange {A} (date : A -> JSDate) record now (items : list A) :
  (forall x d, startTime (record x d) = d) ->
  (forall x e, date x = Some e -> Z.abs e <= maxTime) ->
  Forall timeInRange (pushed date record now items).
Proof.
  intros Hrec Hdate. apply Forall_forall. intros e He.
  apply pushed_after in He as (x & _ & -> & Hgt).
  apply num_gt_spec in Hgt as (t & c & Ht & _). unfold Date_getTime in Ht.
  exists t. rewrite Hrec. split; [assumption|]. now apply (Hdate x).
Qed.

Section ScraperKeys.

Variable LocalTZA : Z -> bool -> Z.

Lemma farmersMarketEvents_title clock :
  Forall (fun e => title e = "Downtown Farmers Market")
         (farmersMarketEvents LocalTZA clock).
Proof.
  apply Forall_forall. intros e He.
  apply pushed_after in He as (i & _ & -> & _). reflexivity.
Qed.

Lemma communityEventsAt_title clock :
  Forall (fun e => In (title e) (map ce_title communityEvents))
         (communityEventsAt LocalTZA clock).
Proof.
  apply Forall_forall. intros e He.
  apply pushed_after in He as (x & Hx & -> & _).
  change (In (ce_title x) (map ce_title communityEvents)). now apply in_map.
Qed.

Lemma communityEventsAt_NoDup clock :
  NoDup (map title (communityEventsAt LocalTZA clock)).
Proof.
  unfold communityEventsAt, pushed. rewrite map_map. cbn [title communityEvent].
  apply NoDup_map_NoDup_ForallPairs.
  - intros x y Hx Hy. apply filter_In in Hx as [Hx _], Hy as [Hy _].
    destruct Hx as [<- | [<- | [<- | []]]], Hy as [<- | [<- | [<- | []]]];
      (reflexivity || discriminate).
  - apply NoDup_filter. repeat constructor; cbn; intuition discriminate.
Qed.

Lemma farmersMarketEvents_timeInRange clock :
  Forall timeInRange (farmersMarketEvents LocalTZA clock).
Proof.
  apply pushed_timeInRange; [reflexivity|]. intros i e.
  rewrite farmersMarketDate_closed. apply Date_setHours_range.
Qed.

Lemma eventsOfChurch_timeInRange clock church :
  Forall timeInRange (eventsOfChurch LocalTZA clock church).
Proof.
  apply pushed_timeInRange; [reflexivity|]. intros w e.
  rewrite churchWeekDate_closed. apply addDays_range.
Qed.

Lemma communityEventsAt_timeInRange clock :
  Forall timeInRange (communityEventsAt LocalTZA clock).
Proof.
  apply pushed_timeInRange; [reflexivity|]. intros x e.
  rewrite communityDate_closed. apply Date_setHours_range.
Qed.

Hypothesis shift_bound : tz_shift_bound LocalTZA.

Lemma scraped_titleTime_NoDup c1 c2 c3 :
  NoDup (map titleTime (farmersMarketEvents LocalTZA c1
                        ++ churchEvents LocalTZA c2
                        ++ communityEventsAt LocalTZA c3)).
Proof.
  unfold churchEvents, churches. cbn [flat_map]. rewrite app_nil_r.
  rewrite <- app_assoc.
  pose proof (communityEventsAt_title c3) as Hco.
  pose proof (eventsOfChurch_title LocalTZA c2 southland) as Hs.
  pose proof (eventsOfChurch_title LocalTZA c2 firstPresbyterian) as Hf.
  apply (NoDup_group_app "Downtown Farmers Market" _
           (churchTitle southland :: churchTitle firstPresbyterian
            :: map ce_title communityEvents)).
  - apply farmersMarketEvents_title.
  - now apply farmersMarketEvents_times.
  - rewrite !Forall_app. repeat split.
    + eapply Forall_impl; [|exact Hs]. intros e ->. now left.
    + eapply Forall_impl; [|exact Hf]. intros e ->. right. now left.
    + eapply Forall_impl; [|exact Hco]. intros e He. right. now right.
  - cbn. intuition discriminate.
  - apply (NoDup_group_app (churchTitle southland) _
             (churchTitle firstPresbyterian :: map ce_title communityEvents)).
    + exact Hs.
    + now apply eventsOfChurch_times.
    + rewrite !Forall_app. split.
      * eapply Forall_impl; [|exact Hf]. intros e ->. now left.
      * eapply Forall_impl; [|exact Hco]. intros e He. now right.
    + cbn. intuition discriminate.
    + apply (NoDup_group_app (churchTitle firstPresbyterian) _
               (map ce_title communityEvents)).
      * exact Hf.
      * now apply eventsOfChurch_times.
      * exact Hco.
      * cbn. intuition discriminate.
      * apply (NoDup_map_compose titleTime fst).
        apply communityEventsAt_NoDup.
Qed.

Lemma scraped_keyFacts c1 c2 c3 :
  Forall (fun e => barFree (title e) = true /\ timeInRange e)
         (farmersMarketEvents LocalTZA c1 ++ churchEvents LocalTZA c2
          ++ communityEventsAt LocalTZA c3).
Proof.
  unfold churchEvents, churches. cbn [flat_map]. rewrite app_nil_r.
  rewrite !Forall_app. repeat split; apply Forall_forall; intros e He.
  - pose proof (farmersMarketEvents_title c1) as Ht.
    pose proof (farmersMarketEvents_timeInRange c1) as Hr.
    rewrite Forall_forall in Ht, Hr. rewrite (Ht e He). auto.
  - pose proof (eventsOfChurch_title LocalTZA c2 southland) as Ht.
    pose proof (eventsOfChurch_timeInRange c2 southland) as Hr.
    rewrite Forall_forall in Ht, Hr. rewrite (Ht e He). auto.
  - pose proof (eventsOfChurch_title LocalTZA c2 firstPresbyterian) as Ht.
    pose proof (eventsOfChurch_timeInRange c2 firstPresbyterian) as Hr.
    rewrite Forall_forall in Ht, Hr. rewrite (Ht e He). auto.
  - pose proof (communityEventsAt_title c3) as Ht.
    pose proof (communityEventsAt_timeInRange c3) as Hr.
    rewrite Forall_forall in Ht, Hr. split; [|auto].
    destruct (Ht e He) as [<- | [<- | [<- | []]]]; reflexivity.
Qed.

Lemma scraped_keys_NoDup c1 c2 c3 :
  NoDup (map keyOf (farmersMarketEvents LocalTZA c1 ++ churchEvents LocalTZA c2
                    ++ communityEventsAt LocalTZA c3)).
Proof.
  apply (NoDup_map_finer keyOf titleTime); [|apply scraped_titleTime_NoDup].
  pose proof (scraped_keyFacts c1 c2 c3) as H. rewrite Forall_forall in H.
  intros x y Hx Hy Hk.
  destruct (H x Hx) as [Bx Rx], (H y Hy) as [By Ry].
  destruct (keyOf_inj x y Bx By Rx Ry Hk) as [Ht Hs].
  unfold titleTime. congruence.
Qed.

End ScraperKeys.

Lemma map_eventKey_valid l :
  Forall validDate l -> map eventKey l = map Normal (map keyOf l).
Proof.
  induction 1 as [|e l He _ IH]; cbn; [reflexivity|].
  now rewrite (eventKey_valid e He), IH.
Qed.



Example all_events_on_monday :
  option_map (fun l => List.length l)
    (match fetchAllEvents zoneUTC monday_9am monday_9am monday_9am with
     | Normal l => Some l
     | Throw _ => None
     end)
  = Some 23%nat.
Proof. vm_compute. reflexivity. Qed.


(** * Further properties of the scrapers and of the aggregator *)

(** ** Free events: [event.title.includes("Cleanup")] *)

Lemma prefix_spec (sub s : string) :
  String.prefix sub s = true <-> exists b, s = (sub ++ b)%string.
Proof.
  revert s. induction sub as [|c sub IH]; intros [|c' s]; cbn.
  - split; [intros _; now exists EmptyString | reflexivity].
  - split; [intros _; now exists (String c' s) | reflexivity].
  - split; [discriminate | intros (b & Hb); discriminate].
  - destruct (ascii_dec c c') as [<-|Hne].
    + rewrite IH. split; intros (b & Hb); exists b; congruence.
    + split; [discriminate | intros (b & [= Hc _]); congruence].
Qed.

(** [s.includes(sub)] holds exactly when [sub] occurs in [s]. *)
Lemma String_includes_spec (s sub : string) :
  String_includes s sub = true <->
  exists a b, s = (a ++ sub ++ b)%string.
Proof.
  induction s as [|c s IH]; cbn [String_includes].
  - rewrite orb_false_r, prefix_spec. split.
    + intros (b & Hb). now exists EmptyString, b.
    + intros (a & b & Hab). destruct a; [now exists b | discriminate].
  - rewrite orb_true_iff, prefix_spec, IH. split.
    + intros [(b & Hb) | (a & b & Hab)].
      * now exists EmptyString, b.
      * exists (String c a), b. cbn. now rewrite Hab.
    + intros (a & b & Hab). destruct a as [|c' a].
      * left. now exists b.
      * right. cbn in Hab. injection Hab as _ Hab. now exists a, b.
Qed.

(** X1. The records of the farmers market and of the churches are free; a
    record of the community scraper is free exactly when "Cleanup" occurs
    in its title. *)
Theorem free_exactly_the_cleanups (LocalTZA : Z -> bool -> Z) (clock : Z) :
  (forall event d,
      isFree (communityEvent event d) = true <->
      exists a b, ce_title event = (a ++ "Cleanup" ++ b)%string) /\
  exists fm ch co,
    scrapeLexingtonFarmersMarket LocalTZA clock = Normal fm /\
    scrapeChurchEvents LocalTZA clock = Normal ch /\
    scrapeYardSalesAndCommunityEvents LocalTZA clock = Normal co /\
    Forall (fun e => isFree e = true) (fm ++ ch) /\
    Forall (fun e => isFree e = true <->
                     exists a b, title e = (a ++ "Cleanup" ++ b)%string) co /\
    Forall (fun e => isFree e = true <->
                     title e = "Community Cleanup Day at Shriners Park") co.
Proof.
  split; [intros event d; apply String_includes_spec|].
  exists (farmersMarketEvents LocalTZA clock), (churchEvents LocalTZA clock),
    (communityEventsAt LocalTZA clock).
  split; [apply scrapeLexingtonFarmersMarket_eq|].
  split; [apply scrapeChurchEvents_eq|].
  split; [apply scrapeYardSalesAndCommunityEvents_eq|].
  split; [|split].
  - rewrite Forall_app. split; apply Forall_forall; intros e He.
    + apply pushed_after in He as (i & _ & -> & _). reflexivity.
    + unfold churchEvents in He. apply in_flat_map in He as (church & _ & He).
      apply pushed_after in He as (w & _ & -> & _). reflexivity.
  - apply Forall_forall. intros e He.
    apply pushed_after in He as (event & _ & -> & _).
    apply String_includes_spec.
  - apply Forall_forall. intros e He.
    apply pushed_after in He as (event & Hin & -> & _).
    destruct Hin as [<- | [<- | [<- | []]]]; cbn; split;
      (reflexivity || discriminate).
Qed.

(** ** The key of a record *)

Lemma template_opt_barFree_irrelevant e1 e2 t1 t2 :
  barFree (title e1) = true -> barFree (title e2) = true ->
  startTime e1 = Some t1 -> startTime e2 = Some t2 ->
  Z.abs t1 <= maxTime -> Z.abs t2 <= maxTime ->
  keyOf e1 = keyOf e2 ->
  title e1 = title e2 /\ t1 = t2 /\
  template_opt (location e1) = template_opt (location e2).
Proof.
  intros B1 B2 E1 E2 R1 R2.
  unfold keyOf, eventKey. rewrite E1, E2. cbn [Date_toISOString bind].
  intros H. apply split_at_bar in H as [Ht H]; [|assumption|assumption].
  apply split_at_bar in H as [Hi Hl]; [|apply ISODateString_barFree ..].
  apply ISODateString_inj in Hi; auto.
Qed.

(** X2. For records whose titles contain no "|" and whose dates are valid
    time values, the key is the same exactly when the title, the start time
    and the printed location are the same. *)
Theorem key_determines_triple (e1 e2 : ScrapedEvent) :
  barFree (title e1) = true -> barFree (title e2) = true ->
  timeInRange e1 -> timeInRange e2 ->
  (eventKey e1 = eventKey e2 <->
   title e1 = title e2 /\ startTime e1 = startTime e2 /\
   template_opt (location e1) = template_opt (location e2)).
Proof.
  intros B1 B2 (t1 & E1 & R1) (t2 & E2 & R2). split.
  - intros H.
    assert (Hk : keyOf e1 = keyOf e2) by (unfold keyOf; now rewrite H).
    destruct (template_opt_barFree_irrelevant e1 e2 t1 t2 B1 B2 E1 E2 R1 R2 Hk)
      as (Ht & Hs & Hl).
    repeat split; congruence.
  - intros (Ht & Hs & Hl). unfold eventKey. now rewrite Ht, Hs, Hl.
Qed.

Lemma sample_timeInRange :
  timeInRange sampleFirst /\ timeInRange sampleOther /\ timeInRange sampleLast.
Proof.
  repeat split; eexists; (split; [reflexivity|]);
    unfold saturday_8am, monday_9am; unfold_ms; lia.
Qed.

(** The theorem at two records with one key and different descriptions. *)
Lemma key_determines_triple_witness :
  eventKey sampleFirst = eventKey sampleLast <->
  title sampleFirst = title sampleLast /\
  startTime sampleFirst = startTime sampleLast /\
  template_opt (location sampleFirst) = template_opt (location sampleLast).
Proof.
  apply (key_determines_triple sampleFirst sampleLast eq_refl eq_refl
           (proj1 sample_timeInRange) (proj2 (proj2 sample_timeInRange))).
Defined.

(** X3. A record without location and the same record with the location
    "undefined" have one key, though not one triple: of the two, the
    aggregator keeps the later one only. *)
Theorem absent_location_reads_undefined (e : ScrapedEvent) :
  location e = None -> validDate e ->
  eventKey (withUndefinedLocation e) = eventKey e /\
  uniqueEvents [e; withUndefinedLocation e]
  = Normal [withUndefinedLocation e] /\
  fetchAllEventsFrom (Normal [e]) (Normal []) (Normal [withUndefinedLocation e])
  = Normal [withUndefinedLocation e] /\
  (keyTriple (withUndefinedLocation e) = keyTriple e -> False).
Proof.
  intros Hl Hv. destruct (validDate_Some e Hv) as (t & Ht).
  assert (Hk : eventKey (withUndefinedLocation e) = eventKey e).
  { unfold eventKey, withUndefinedLocation. cbn. now rewrite Hl. }
  assert (Hu : uniqueEvents [e; withUndefinedLocation e]
               = Normal [withUndefinedLocation e]).
  { unfold uniqueEvents. cbn [Array_map]. rewrite Hk.
    unfold eventKey. rewrite Ht. cbn [Date_toISOString bind].
    unfold JSMap.from_entries. cbn [fold_left JSMap.set JSMap.empty fst snd].
    now rewrite String.eqb_refl. }
  split; [exact Hk|]. split; [exact Hu|]. split.
  - unfold fetchAllEventsFrom. cbn [bind app]. now rewrite Hu.
  - unfold keyTriple, withUndefinedLocation. cbn. rewrite Hl. discriminate.
Qed.

Lemma absent_location_reads_undefined_witness :
  eventKey (withUndefinedLocation
              {| title := "Porch Concert"; description := None;
                 startTime := Some saturday_8am; location := None;
                 imageUrl := None; sourceUrl := "https://example.org/";
                 category := "community"; isFree := true |})
  = Normal "Porch Concert|2024-01-06T08:00:00.000Z|undefined".
Proof.
  pose proof (absent_location_reads_undefined
                {| title := "Porch Concert"; description := None;
                   startTime := Some saturday_8am; location := None;
                   imageUrl := None; sourceUrl := "https://example.org/";
                   category := "community"; isFree := true |}
                eq_refl ltac:(discriminate)) as (H & _).
  rewrite H. vm_compute. reflexivity.
Defined.


(** ** What the deduplication step keeps *)

Lemma filter_length_all {A} (p : A -> bool) (l : list A) :
  List.length (filter p l) = List.length l -> forall x, In x l -> p x = true.
Proof.
  induction l as [|y l IH]; cbn; [tauto|].
  pose proof (filter_length_le p l) as Hle.
  destruct (p y) eqn:E; cbn; intros Hlen x [<- | Hx]; auto; lia.
Qed.

Lemma firstOccurrences_length ks :
  (List.length (firstOccurrences ks) <= List.length ks)%nat.
Proof.
  induction ks as [|k ks IH]; cbn; [lia|].
  pose proof (filter_length_le (fun k' => negb (String.eqb k' k))
                (firstOccurrences ks)). lia.
Qed.

Lemma filter_all_true {A} (p : A -> bool) (l : list A) :
  (forall x, In x l -> p x = true) -> filter p l = l.
Proof.
  induction l as [|y l IH]; cbn; intros H; [reflexivity|].
  rewrite (H y) by now left. f_equal. apply IH. intros x Hx. apply H. now right.
Qed.

Lemma firstOccurrences_NoDup_id ks : NoDup ks -> firstOccurrences ks = ks.
Proof.
  induction 1 as [|k ks Hnotin _ IH]; cbn; [reflexivity|].
  rewrite IH. f_equal. apply filter_all_true. intros k' Hk'.
  apply negb_true_iff, String.eqb_neq. intros ->. contradiction.
Qed.

Lemma firstOccurrences_full ks :
  List.length (firstOccurrences ks) = List.length ks <-> NoDup ks.
Proof.
  split; [|intros H; now rewrite firstOccurrences_NoDup_id].
  induction ks as [|k ks IH]; cbn; [constructor|].
  pose proof (filter_length_le (fun k' => negb (String.eqb k' k))
                (firstOccurrences ks)) as Hf.
  pose proof (firstOccurrences_length ks) as Hl.
  intros H.
  assert (H1 : List.length (filter (fun k' => negb (String.eqb k' k))
                                   (firstOccurrences ks))
               = List.length (firstOccurrences ks)) by lia.
  assert (H2 : List.length (firstOccurrences ks) = List.length ks) by lia.
  constructor; [|now apply IH].
  intros Hin. apply firstOccurrences_In in Hin.
  pose proof (filter_length_all _ _ H1 k Hin) as Hk. cbn in Hk.
  now rewrite String.eqb_refl in Hk.
Qed.

(** X4. The deduplication step never adds a record: it returns as many
    records as it was given exactly when no two of them share a key, and
    fewer otherwise; the aggregator returns as many as that step. *)
Theorem dedup_shrinks_on_shared_keys (fm ch co : list ScrapedEvent) :
  let allEvents := fm ++ ch ++ co in
  Forall validDate allEvents ->
  exists unique out,
    uniqueEvents allEvents = Normal unique /\
    fetchAllEventsFrom (Normal fm) (Normal ch) (Normal co) = Normal out /\
    List.length out = List.length unique /\
    (List.length unique <= List.length allEvents)%nat /\
    (List.length unique = List.length allEvents <->
     NoDup (map eventKey allEvents)) /\
    (NoDup (map eventKey allEvents) -> unique = allEvents).
Proof.
  intros allEvents Hv.
  exists (uniqueEventsOf allEvents),
    (Array_sort byStartTime (uniqueEventsOf allEvents)).
  split; [now apply uniqueEvents_valid|].
  split; [now apply fetchAllEventsFrom_valid|].
  split; [apply Array_sort_length|].
  assert (Hlen : List.length (uniqueEventsOf allEvents)
                 = List.length (firstOccurrences (map keyOf allEvents)))
    by (rewrite <- uniqueEventsOf_keys; now rewrite length_map).
  assert (Hkeys : NoDup (map eventKey allEvents)
                  <-> NoDup (map keyOf allEvents)).
  { rewrite (map_eventKey_valid _ Hv). split.
    - apply NoDup_map_inv.
    - intros H. apply NoDup_map_NoDup_ForallPairs; [|exact H].
      intros x y _ _ [= E]. exact E. }
  split.
  { rewrite Hlen. etransitivity; [apply firstOccurrences_length|].
    now rewrite length_map. }
  split.
  { rewrite Hlen, Hkeys, <- firstOccurrences_full. now rewrite length_map. }
  intros H. apply uniqueEventsOf_id. now apply Hkeys.
Qed.

(** The theorem at three records, two of them with one key: two are left. *)
Lemma dedup_shrinks_on_shared_keys_witness :
  exists unique,
    uniqueEvents ([sampleFirst] ++ [sampleOther] ++ [sampleLast])
    = Normal unique /\
    (List.length unique
     <= List.length ([sampleFirst] ++ [sampleOther] ++ [sampleLast]))%nat.
Proof.
  destruct (dedup_shrinks_on_shared_keys [sampleFirst] [sampleOther]
              [sampleLast] sample_valid)
    as (unique & out & H1 & _ & _ & H2 & _).
  exists unique. split; assumption.
Defined.

(** X5. The aggregator invents no record and loses no key: each record it
    returns is one of the records of the scrapers, and each key of a record
    of the scrapers is the key of a record it returns. *)
Theorem output_covers_every_key (fm ch co : list ScrapedEvent) :
  let allEvents := fm ++ ch ++ co in
  Forall validDate allEvents ->
  exists out,
    fetchAllEventsFrom (Normal fm) (Normal ch) (Normal co) = Normal out /\
    (forall e, In e out -> In e allEvents) /\
    (forall e, In e allEvents ->
               exists e', In e' out /\ eventKey e' = eventKey e) /\
    (forall e, In e allEvents ->
               NoDup (map eventKey allEvents) -> In e out).
Proof.
  intros allEvents Hv.
  exists (Array_sort byStartTime (uniqueEventsOf allEvents)).
  split; [now apply fetchAllEventsFrom_valid|].
  assert (Hin : forall e, In e (Array_sort byStartTime (uniqueEventsOf allEvents))
                          <-> In e (uniqueEventsOf allEvents)).
  { intros e. split; apply Permutation_in;
      [apply Array_sort_perm | symmetry; apply Array_sort_perm]. }
  split; [|split].
  - intros e He. now apply uniqueEventsOf_incl, Hin.
  - intros e He.
    destruct (lastWithKey_Some (keyOf e) allEvents (in_map keyOf _ _ He))
      as (e' & He').
    pose proof (lastWithKey_In _ _ _ He') as [Hine' Hk].
    exists e'. split.
    + apply Hin, uniqueEventsOf_last. now rewrite Hk.
    + rewrite Forall_forall in Hv.
      now rewrite (eventKey_valid e (Hv e He)),
        (eventKey_valid e' (Hv e' Hine')), Hk.
  - intros e He Hnd. apply Hin. rewrite uniqueEventsOf_id; [assumption|].
    rewrite (map_eventKey_valid _ Hv) in Hnd. now apply NoDup_map_inv in Hnd.
Qed.

Lemma output_covers_every_key_witness :
  exists out,
    fetchAllEventsFrom (Normal [sampleFirst]) (Normal [sampleOther])
                       (Normal [sampleLast]) = Normal out /\
    exists e', In e' out /\ eventKey e' = eventKey sampleFirst.
Proof.
  destruct (output_covers_every_key [sampleFirst] [sampleOther] [sampleLast]
              sample_valid) as (out & H1 & _ & H2 & _).
  exists out. split; [exact H1|]. apply H2. now left.
Defined.


(** ** The output as a canonical list *)

Lemma Array_sort_sorted_id l :
  StronglySorted timeLe l -> Array_sort byStartTime l = l.
Proof.
  induction 1 as [|x l Hs IH Hx]; [reflexivity|].
  cbn [Array_sort fold_right]. fold (Array_sort byStartTime l). rewrite IH.
  destruct l as [|y l]; [reflexivity|]. cbn [sort_insert].
  inversion Hx as [|? ? Hxy _]; subst. unfold timeLe in Hxy.
  unfold SortCompare, byStartTime, Date_getTime.
  destruct (startTime x) as [tx|]; [|contradiction].
  destruct (startTime y) as [ty|]; [|contradiction].
  cbn. destruct (Z.leb_spec (tx - ty) 0); [reflexivity | lia].
Qed.

Lemma fetchAllEventsFrom_output p1 p2 p3 out :
  fetchAllEventsFrom p1 p2 p3 = Normal out ->
  Forall validDate out /\ NoDup (map keyOf out) /\ StronglySorted timeLe out.
Proof.
  destruct (fetchAllEventsFrom_cases p1 p2 p3)
    as [(fm & ch & co & _ & _ & _ & Hv & ->) | ->]; intros [= <-].
  - pose proof (uniqueEventsOf_Forall _ _ Hv) as Hu. repeat split.
    + eapply Permutation_Forall; [symmetry; apply Array_sort_perm | exact Hu].
    + eapply Permutation_NoDup; [|apply (uniqueEventsOf_NoDup (fm ++ ch ++ co))].
      apply Permutation_map. symmetry. apply Array_sort_perm.
    + now apply Array_sort_sorted.
  - repeat split; constructor.
Qed.

(** X6. The list the aggregator returns is a fixed point of the
    aggregator: given that list as the result of any one scraper, the two
    others returning nothing, it returns the list unchanged. *)
Theorem aggregating_twice_changes_nothing p1 p2 p3 out :
  fetchAllEventsFrom p1 p2 p3 = Normal out ->
  uniqueEvents out = Normal out /\
  Array_sort byStartTime out = out /\
  fetchAllEventsFrom (Normal out) (Normal []) (Normal []) = Normal out /\
  fetchAllEventsFrom (Normal []) (Normal out) (Normal []) = Normal out /\
  fetchAllEventsFrom (Normal []) (Normal []) (Normal out) = Normal out.
Proof.
  intros H. apply fetchAllEventsFrom_output in H as (Hv & Hnd & Hs).
  pose proof (uniqueEventsOf_id out Hnd) as Hu.
  pose proof (Array_sort_sorted_id out Hs) as Hsort.
  split; [now rewrite (uniqueEvents_valid _ Hv), Hu|].
  split; [exact Hsort|].
  repeat split.
  - rewrite fetchAllEventsFrom_valid; rewrite ?app_nil_r; [|assumption].
    now rewrite Hu, Hsort.
  - rewrite fetchAllEventsFrom_valid; cbn [app]; rewrite ?app_nil_r;
      [|assumption]. now rewrite Hu, Hsort.
  - rewrite fetchAllEventsFrom_valid; cbn [app]; [|assumption].
    now rewrite Hu, Hsort.
Qed.

Lemma aggregating_twice_changes_nothing_witness :
  fetchAllEventsFrom (Normal [sampleOther; sampleLast]) (Normal []) (Normal [])
  = Normal [sampleOther; sampleLast].
Proof.
  apply (aggregating_twice_changes_nothing
           (Normal [sampleFirst]) (Normal [sampleOther]) (Normal [sampleLast])
           [sampleOther; sampleLast] eq_refl).
Defined.

Lemma filter_startsAt_NoDup l e t :
  NoDup (map startTime l) -> In e l -> startTime e = Some t ->
  filter (startsAt t) l = [e].
Proof.
  induction l as [|x l IH]; cbn; [tauto|].
  intros Hnd Hin Ht. inversion Hnd as [|? ? Hnotin Hnd']; subst.
  destruct Hin as [-> | Hin].
  - unfold startsAt at 1. rewrite Ht, Z.eqb_refl. f_equal.
    apply filter_none. intros y Hy. unfold startsAt.
    destruct (startTime y) as [ty|] eqn:Ey; [|reflexivity].
    apply Z.eqb_neq. intros ->. apply Hnotin. rewrite Ht, <- Ey.
    now apply in_map.
  - rewrite (IH Hnd' Hin Ht). unfold startsAt.
    destruct (startTime x) as [tx|] eqn:Ex; [|reflexivity].
    destruct (Z.eqb_spec tx t) as [->|]; [|reflexivity].
    exfalso. apply Hnotin. rewrite <- Ht. now apply in_map.
Qed.

Lemma filter_startsAt_none l t :
  (forall e, In e l -> startTime e <> Some t) -> filter (startsAt t) l = [].
Proof.
  intros H. apply filter_none. intros e He. unfold startsAt.
  destruct (startTime e) as [te|] eqn:E; [|reflexivity].
  apply Z.eqb_neq. intros ->. now apply (H e He).
Qed.

(** X7. When no two records share a key or a start time, the order in which
    the scrapers list them does not count: the aggregator returns one list
    for all arrangements of the same records. *)
Theorem arrangement_does_not_count (fm ch co fm' ch' co' : list ScrapedEvent) :
  Forall validDate (fm ++ ch ++ co) ->
  NoDup (map eventKey (fm ++ ch ++ co)) ->
  NoDup (map startTime (fm ++ ch ++ co)) ->
  Permutation (fm ++ ch ++ co) (fm' ++ ch' ++ co') ->
  fetchAllEventsFrom (Normal fm') (Normal ch') (Normal co')
  = fetchAllEventsFrom (Normal fm) (Normal ch) (Normal co).
Proof.
  intros Hv Hk Ht Hp.
  set (l := fm ++ ch ++ co) in *. set (l' := fm' ++ ch' ++ co') in *.
  assert (Hv' : Forall validDate l') by (eapply Permutation_Forall; eauto).
  assert (Hkl : NoDup (map keyOf l)).
  { rewrite (map_eventKey_valid _ Hv) in Hk. now apply NoDup_map_inv in Hk. }
  assert (Hkl' : NoDup (map keyOf l'))
    by (eapply Permutation_NoDup; [apply Permutation_map; exact Hp | exact Hkl]).
  assert (Ht' : NoDup (map startTime l'))
    by (eapply Permutation_NoDup; [apply Permutation_map; exact Hp | exact Ht]).
  rewrite !fetchAllEventsFrom_valid by assumption. fold l l'.
  rewrite !uniqueEventsOf_id by assumption. f_equal.
  apply stable_sort_unique.
  - eapply Permutation_Forall; [symmetry; apply Array_sort_perm | exact Hv'].
  - now apply Array_sort_sorted.
  - now apply Array_sort_sorted.
  - rewrite !Array_sort_perm. now symmetry.
  - intros t. rewrite !Array_sort_stable by assumption.
    assert (Hdec : forall a b : option Z, {a = b} + {a <> b})
      by (decide equality; apply Z.eq_dec).
    destruct (in_dec Hdec (Some t) (map startTime l)) as [Hin | Hnotin].
    + apply in_map_iff in Hin as (e & He & Hin).
      rewrite (filter_startsAt_NoDup l e t Ht Hin He).
      apply (filter_startsAt_NoDup l' e t Ht'); [|exact He].
      eapply Permutation_in; eauto.
    + rewrite !filter_startsAt_none; [reflexivity | |].
      * intros e He E. apply Hnotin. rewrite <- E. now apply in_map.
      * intros e He E. apply Hnotin. rewrite <- E. apply in_map.
        eapply Permutation_in; [symmetry; exact Hp | exact He].
Qed.

Lemma arrangement_does_not_count_witness :
  fetchAllEventsFrom (Normal [sampleLast]) (Normal []) (Normal [sampleOther])
  = fetchAllEventsFrom (Normal [sampleOther]) (Normal []) (Normal [sampleLast]).
Proof.
  apply (arrangement_does_not_count [sampleOther] [] [sampleLast]
           [sampleLast] [] [sampleOther]).
  - repeat constructor; discriminate.
  - repeat constructor; vm_compute; intuition discriminate.
  - repeat constructor; vm_compute; intuition discriminate.
  - apply perm_swap.
Defined.

(** ** The fields of the records *)

Lemma farmersMarketEvent_wellFormed d :
  timeInRange (farmersMarketEvent d) -> wellFormed (farmersMarketEvent d).
Proof.
  intros H. unfold wellFormed. cbn.
  repeat split; try discriminate; eauto.
Qed.

Lemma churchEvent_wellFormed church d :
  In church churches ->
  timeInRange (churchEvent church d) -> wellFormed (churchEvent church d).
Proof.
  intros Hin H. unfold wellFormed.
  destruct Hin as [<- | [<- | []]]; cbn;
    repeat split; try discriminate; eauto.
Qed.

Lemma communityEvent_wellFormed event d :
  In event communityEvents ->
  timeInRange (communityEvent event d) -> wellFormed (communityEvent event d).
Proof.
  intros Hin H. unfold wellFormed.
  destruct Hin as [<- | [<- | [<- | []]]]; cbn;
    repeat split; try discriminate; eauto.
Qed.

Lemma scraped_wellFormed LocalTZA c1 c2 c3 :
  Forall wellFormed (farmersMarketEvents LocalTZA c1
                     ++ churchEvents LocalTZA c2
                     ++ communityEventsAt LocalTZA c3).
Proof.
  rewrite !Forall_app. repeat split; apply Forall_forall; intros e He.
  - pose proof (farmersMarketEvents_timeInRange LocalTZA c1) as Hr.
    rewrite Forall_forall in Hr. specialize (Hr e He).
    apply pushed_after in He as (i & _ & -> & _).
    now apply farmersMarketEvent_wellFormed.
  - unfold churchEvents in He. apply in_flat_map in He as (church & Hc & He).
    pose proof (eventsOfChurch_timeInRange LocalTZA c2 church) as Hr.
    rewrite Forall_forall in Hr. specialize (Hr e He).
    apply pushed_after in He as (w & _ & -> & _).
    now apply churchEvent_wellFormed.
  - pose proof (communityEventsAt_timeInRange LocalTZA c3) as Hr.
    rewrite Forall_forall in Hr. specialize (Hr e He).
    apply pushed_after in He as (event & Hin & -> & _).
    now apply communityEvent_wellFormed.
Qed.

(** X8. Every record of the three scrapers, and so every record
    [fetchAllEvents] returns, has a title and a source URL that are not
    empty, the category "food" or "community", a description, a location
    and an image URL, and a start time that is a valid time value; the key
    of such a record never ends in "undefined" for want of a location. *)
Theorem records_are_complete (LocalTZA : Z -> bool -> Z)
    (clock1 clock2 clock3 : Z) :
  exists fm ch co out,
    scrapeLexingtonFarmersMarket LocalTZA clock1 = Normal fm /\
    scrapeChurchEvents LocalTZA clock2 = Normal ch /\
    scrapeYardSalesAndCommunityEvents LocalTZA clock3 = Normal co /\
    fetchAllEvents LocalTZA clock1 clock2 clock3 = Normal out /\
    Forall wellFormed (fm ++ ch ++ co) /\
    Forall wellFormed out /\
    Forall (fun e => category e = "food" <->
                     title e = "Downtown Farmers Market") out.
Proof.
  exists (farmersMarketEvents LocalTZA clock1), (churchEvents LocalTZA clock2),
    (communityEventsAt LocalTZA clock3).
  eexists.
  split; [apply scrapeLexingtonFarmersMarket_eq|].
  split; [apply scrapeChurchEvents_eq|].
  split; [apply scrapeYardSalesAndCommunityEvents_eq|].
  split; [apply fetchAllEvents_eq|].
  pose proof (scraped_wellFormed LocalTZA clock1 clock2 clock3) as Hw.
  split; [exact Hw|]. split.
  - eapply Permutation_Forall; [symmetry; apply Array_sort_perm|].
    now apply uniqueEventsOf_Forall.
  - eapply Permutation_Forall; [symmetry; apply Array_sort_perm|].
    apply uniqueEventsOf_Forall.
    rewrite !Forall_app. repeat split; apply Forall_forall; intros e He.
    + apply pushed_after in He as (i & _ & -> & _). cbn. tauto.
    + unfold churchEvents in He. apply in_flat_map in He as (church & Hc & He).
      apply pushed_after in He as (w & _ & -> & _).
      destruct Hc as [<- | [<- | []]]; cbn; split; discriminate.
    + apply pushed_after in He as (event & Hin & -> & _).
      destruct Hin as [<- | [<- | [<- | []]]]; cbn; split; discriminate.
Qed.


(** ** How many records, in a zone of bounded shifts *)

Lemma pushed_all {A} (date : A -> JSDate) record now (items : list A) :
  (forall x, In x items ->
             (Date_getTime (date x) >? Date_getTime now)%num = true) ->
  pushed date record now items = map (fun x => record x (date x)) items.
Proof.
  intros H. unfold pushed. f_equal. now apply filter_all_true.
Qed.

Section Counts.

Variable LocalTZA : Z -> bool -> Z.
Hypothesis shift_bound : tz_shift_bound LocalTZA.

Local Abbreviation LT := (LocalTime LocalTZA).

(** [setDate] by [n] days, then [setHours]: the date is valid when there is
    room for it, and it lies between a day before and a day after [n] days
    and [h] hours from the clock reading, the span of offsets included. *)
Lemma moved_date_defined clock n h :
  Z.abs clock + (n + 3) * msPerDay <= maxTime ->
  0 <= n -> 0 <= h <= 23 ->
  exists e,
    Date_setHours LocalTZA (addDays LocalTZA (TimeClip clock) n) h 0 0 0
    = Some e /\
    clock + (n - 1) * msPerDay - 16 * msPerHour + h * msPerHour < e /\
    e <= clock + n * msPerDay + 16 * msPerHour + h * msPerHour.
Proof.
  intros Hc Hn Hh.
  rewrite (TimeClip_in_range clock) by (unfold_ms; lia).
  unfold addDays. set (x := LT clock + n * msPerDay).
  set (a := LocalTZA clock true). set (f1 := LocalTZA x false).
  assert (Ex : UTC LocalTZA x = clock + n * msPerDay + (a - f1))
    by (unfold UTC; fold f1; unfold x, LT, LocalTime; fold a; lia).
  pose proof (shift_bound clock x true false) as B1.
  pose proof (shift_bound x clock false true) as B2.
  fold a f1 in B1, B2.
  rewrite Ex, TimeClip_in_range by (unfold_ms; lia).
  set (v := clock + n * msPerDay + (a - f1)).
  unfold Date_setHours. cbv zeta. fold (LT v).
  set (t1 := LocalTZA v true).
  assert (ELv : LT v = v + t1) by reflexivity.
  set (tl := MakeDate (Day (LT v)) (MakeTime h 0 0 0)).
  set (f2 := LocalTZA tl false).
  assert (Etl : UTC LocalTZA tl = tl - f2) by reflexivity.
  pose proof (shift_bound v tl true false) as B3.
  pose proof (shift_bound tl v false true) as B4.
  fold t1 f2 in B3, B4.
  pose proof (Day_TimeWithinDay (LT v)) as HD.
  pose proof (TimeWithinDay_range (LT v)) as HT.
  assert (Hlo : clock + (n - 1) * msPerDay - 16 * msPerHour + h * msPerHour
                < tl - f2)
    by (unfold tl, MakeDate, MakeTime, v in *; unfold_ms; lia).
  assert (Hhi : tl - f2
                <= clock + n * msPerDay + 16 * msPerHour + h * msPerHour)
    by (unfold tl, MakeDate, MakeTime, v in *; unfold_ms; lia).
  exists (tl - f2). rewrite Etl.
  split; [apply TimeClip_in_range; unfold_ms; lia|]. split; assumption.
Qed.

(** A date two days ahead or more passes the test of the loops. *)
Lemma moved_date_future clock n h :
  Z.abs clock + (n + 3) * msPerDay <= maxTime ->
  2 <= n -> 0 <= h <= 23 ->
  exists e,
    Date_setHours LocalTZA (addDays LocalTZA (TimeClip clock) n) h 0 0 0
    = Some e /\
    clock < e /\
    (Date_getTime (Some e) >? Date_getTime (Date_now clock))%num = true.
Proof.
  intros Hc Hn Hh.
  destruct (moved_date_defined clock n h Hc ltac:(lia) Hh)
    as (e & He & Hlo & _).
  assert (Hlt : clock < e) by (unfold_ms; lia).
  exists e. split; [exact He|]. split; [exact Hlt|].
  apply num_gt_spec. exists e, clock. auto.
Qed.

(** [date.setDate(date.getDate() + week * 7)] from a valid date: within
    eight hours of [week] weeks later. *)
Lemma churchWeekDate_defined E w :
  Z.abs E + (w * 7 + 1) * msPerDay <= maxTime -> 0 <= w ->
  exists e,
    churchWeekDate LocalTZA (Some E) w = Some e /\
    E + w * 7 * msPerDay - 8 * msPerHour <= e /\
    e <= E + w * 7 * msPerDay + 8 * msPerHour.
Proof.
  intros HE Hw. rewrite churchWeekDate_closed. cbn [Date_new].
  rewrite (TimeClip_in_range E) by (unfold_ms; lia). unfold addDays.
  set (x := LT E + w * 7 * msPerDay).
  assert (Ex : UTC LocalTZA x
               = E + w * 7 * msPerDay + (LocalTZA E true - LocalTZA x false))
    by (unfold UTC, x, LT, LocalTime; lia).
  pose proof (shift_bound E x true false) as B1.
  pose proof (shift_bound x E false true) as B2.
  rewrite Ex. eexists. split; [apply TimeClip_in_range; unfold_ms; lia|].
  unfold_ms. lia.
Qed.

Lemma clock_in_range_room clock n :
  clock_in_range clock -> n <= 27 ->
  Z.abs clock + (n + 3) * msPerDay <= maxTime.
Proof. unfold clock_in_range. unfold_ms. lia. Qed.

Lemma clock_far_in_range_room clock n :
  clock_far_in_range clock -> n <= 57 ->
  Z.abs clock + (n + 3) * msPerDay <= maxTime.
Proof. unfold clock_far_in_range. unfold_ms. lia. Qed.

Lemma communityDate_future clock event :
  clock_in_range clock ->
  2 <= ce_date event <= 27 -> 0 <= ce_time event <= 23 ->
  exists e,
    communityDate LocalTZA (Date_now clock) event = Some e /\
    clock < e /\
    (Date_getTime (Some e) >? Date_getTime (Date_now clock))%num = true.
Proof.
  intros Hc Hd Hh. rewrite communityDate_closed.
  apply moved_date_future;
    [apply clock_in_range_room; [exact Hc | lia] | lia | lia].
Qed.

Lemma communityEventsAt_three clock :
  clock_in_range clock ->
  exists cleanup sale paint,
    communityEventsAt LocalTZA clock
    = [communityEvent cleanupDay (Some cleanup);
       communityEvent yardSale (Some sale);
       communityEvent paintAndSip (Some paint)] /\
    clock < paint /\ paint < cleanup /\ cleanup < sale.
Proof.
  intros Hc.
  destruct (moved_date_defined clock 7 9
              (clock_in_range_room clock 7 Hc ltac:(lia)) ltac:(lia) ltac:(lia))
    as (e1 & E1 & L1 & U1).
  destruct (moved_date_defined clock 14 8
              (clock_in_range_room clock 14 Hc ltac:(lia)) ltac:(lia) ltac:(lia))
    as (e2 & E2 & L2 & U2).
  destruct (moved_date_defined clock 4 19
              (clock_in_range_room clock 4 Hc ltac:(lia)) ltac:(lia) ltac:(lia))
    as (e3 & E3 & L3 & U3).
  exists e1, e2, e3.
  assert (D1 : communityDate LocalTZA (Date_now clock) cleanupDay = Some e1)
    by (rewrite communityDate_closed; exact E1).
  assert (D2 : communityDate LocalTZA (Date_now clock) yardSale = Some e2)
    by (rewrite communityDate_closed; exact E2).
  assert (D3 : communityDate LocalTZA (Date_now clock) paintAndSip = Some e3)
    by (rewrite communityDate_closed; exact E3).
  split; [|unfold_ms; lia].
  unfold communityEventsAt. rewrite pushed_all.
  - unfold communityEvents. cbn [map]. now rewrite D1, D2, D3.
  - intros x [<- | [<- | [<- | []]]]; rewrite ?D1, ?D2, ?D3;
      apply num_gt_spec; eexists; exists clock;
      (split; [reflexivity|]); (split; [reflexivity|]); unfold_ms; lia.
Qed.

(** X9. A one-off template dated two days ahead or more is never dropped:
    the community scraper returns one record for each such template, in
    the order of the templates; for the templates of the source it returns
    its three records, of which Paint & Sip Night is the earliest and the
    yard sale the latest. *)
Theorem one_offs_are_all_listed (clock : Z) :
  clock_in_range clock ->
  (forall templates,
      Forall (fun event => 2 <= ce_date event <= 27 /\
                           0 <= ce_time event <= 23) templates ->
      exists l,
        communityBodyOf LocalTZA templates clock = Normal l /\
        map title l = map ce_title templates /\
        Forall (startsAfter clock) l) /\
  exists cleanup sale paint,
    scrapeYardSalesAndCommunityEvents LocalTZA clock
    = Normal [communityEvent cleanupDay (Some cleanup);
              communityEvent yardSale (Some sale);
              communityEvent paintAndSip (Some paint)] /\
    clock < paint /\ paint < cleanup /\ cleanup < sale.
Proof.
  intros Hc. split.
  - intros templates Ht. eexists.
    split; [apply communityBodyOf_eq|].
    split; [|apply pushed_startsAfter; [lia | reflexivity]].
    rewrite pushed_all.
    + rewrite map_map. apply map_ext. reflexivity.
    + intros x Hx. rewrite Forall_forall in Ht. destruct (Ht x Hx) as [Hd Hh].
      destruct (communityDate_future clock x Hc Hd Hh) as (e & -> & _ & Hgt).
      exact Hgt.
  - destruct (communityEventsAt_three clock Hc)
      as (e1 & e2 & e3 & E & H).
    exists e1, e2, e3. split; [|exact H].
    now rewrite scrapeYardSalesAndCommunityEvents_eq, E.
Qed.

Lemma farmersMarketEvents_three_sure clock :
  clock_in_range clock ->
  exists first e1 e2 e3,
    farmersMarketEvents LocalTZA clock
    = first ++ map (fun e => farmersMarketEvent (Some e)) [e1; e2; e3] /\
    (List.length first <= 1)%nat /\
    clock < e1 /\ e1 < e2 /\ e2 < e3.
Proof.
  intros Hc.
  pose proof (WeekDay_range (LT clock)) as Hw.
  pose proof (daysUntil_range 6 (WeekDay (LT clock)) ltac:(lia) Hw) as [Hk _].
  set (k := daysUntil 6 (WeekDay (LT clock))) in *.
  assert (Hf : forall i, 1 <= i <= 3 ->
               exists e,
                 farmersMarketDate LocalTZA (Date_now clock) i = Some e /\
                 clock < e /\
                 (Date_getTime (Some e) >? Date_getTime (Date_now clock))%num
                 = true).
  { intros i Hi. rewrite farmersMarketDate_closed. fold k.
    apply moved_date_future;
      [apply clock_in_range_room; [exact Hc | lia] | lia | lia]. }
  destruct (Hf 1 ltac:(lia)) as (e1 & E1 & L1 & G1).
  destruct (Hf 2 ltac:(lia)) as (e2 & E2 & L2 & G2).
  destruct (Hf 3 ltac:(lia)) as (e3 & E3 & L3 & G3).
  exists (pushed (farmersMarketDate LocalTZA (Date_now clock))
                 (fun _ => farmersMarketEvent) (Date_now clock) [0]),
    e1, e2, e3.
  split; [|split; [apply (pushed_length _ _ _ [0])|]].
  - unfold farmersMarketEvents.
    change (range 4) with ([0] ++ [1; 2; 3]). rewrite pushed_app. f_equal.
    rewrite pushed_all.
    + cbn [map]. now rewrite E1, E2, E3.
    + intros x [<- | [<- | [<- | []]]]; rewrite ?E1, ?E2, ?E3; assumption.
  - split; [exact L1|].
    rewrite farmersMarketDate_closed in E1, E2, E3. split.
    + eapply (moved_dates_increase LocalTZA shift_bound);
        [|exact E1|exact E2]; lia.
    + eapply (moved_dates_increase LocalTZA shift_bound);
        [|exact E2|exact E3]; lia.
Qed.

(** X10. Whatever the day and the hour, the farmers market scraper returns
    the markets of the three weeks after the next Saturday, in this order
    and one later than the other; before them it returns one record more,
    or none: 3 records or 4.  Nothing is asked of the Saturdays of the
    zone. *)
Theorem farmers_market_at_least_three (clock : Z) :
  clock_in_range clock ->
  exists first e1 e2 e3 l,
    scrapeLexingtonFarmersMarket LocalTZA clock = Normal l /\
    l = first ++ map (fun e => farmersMarketEvent (Some e)) [e1; e2; e3] /\
    (List.length first <= 1)%nat /\
    (3 <= List.length l <= 4)%nat /\
    clock < e1 /\ e1 < e2 /\ e2 < e3.
Proof.
  intros Hc.
  destruct (farmersMarketEvents_three_sure clock Hc)
    as (first & e1 & e2 & e3 & E & Hl & H).
  exists first, e1, e2, e3, (farmersMarketEvents LocalTZA clock).
  split; [apply scrapeLexingtonFarmersMarket_eq|].
  split; [exact E|]. split; [exact Hl|]. split; [|exact H].
  rewrite E, length_app. cbn [List.length map]. lia.
Qed.

Lemma eventsOfChurch_seven_sure clock church :
  clock_far_in_range clock -> validChurch church ->
  exists first rest,
    eventsOfChurch LocalTZA clock church = first ++ rest /\
    (List.length first <= 1)%nat /\ List.length rest = 7%nat.
Proof.
  intros Hc [Hd Hh].
  pose proof (WeekDay_range (LT clock)) as Hw.
  pose proof (daysUntil_range (church_day church) (WeekDay (LT clock)) Hd Hw)
    as [Hk _].
  set (n := daysUntil (church_day church) (WeekDay (LT clock))) in *.
  assert (Hroom : Z.abs clock + (n + 3) * msPerDay <= maxTime)
    by (apply clock_far_in_range_room; [exact Hc | lia]).
  destruct (moved_date_defined clock n (church_time church) Hroom
              (proj1 Hk) Hh) as (E & HE & Hlo & Hhi).
  assert (EE : churchFirstDate LocalTZA (Date_now clock) church = Some E)
    by (rewrite churchFirstDate_closed; exact HE).
  unfold clock_far_in_range in Hc.
  exists (pushed (churchWeekDate LocalTZA (Some E))
                 (fun _ => churchEvent church) (Date_now clock) [0]),
    (pushed (churchWeekDate LocalTZA (Some E))
            (fun _ => churchEvent church) (Date_now clock)
            [1; 2; 3; 4; 5; 6; 7]).
  split; [|split; [apply (pushed_length _ _ _ [0])|]].
  - unfold eventsOfChurch. rewrite EE.
    change (range 8) with ([0] ++ [1; 2; 3; 4; 5; 6; 7]). apply pushed_app.
  - rewrite pushed_all; [now rewrite length_map|].
    intros w Hw'.
    assert (Hw7 : 1 <= w <= 7) by (cbn in Hw'; lia).
    destruct (churchWeekDate_defined E w) as (e & -> & Hle & _);
      [unfold_ms; lia | lia |].
    apply num_gt_spec. exists e, clock.
    split; [reflexivity|]. split; [reflexivity|]. unfold_ms. lia.
Qed.

(** X11. A church with a day of the week and an hour of the day gets its
    records of the seven weeks after the next occurrence whatever the day
    and the hour, and before them one record more, or none: 7 or 8 records
    for a church, from 14 to 16 for the two churches of the source. *)
Theorem churches_seven_or_eight (clock : Z) :
  clock_far_in_range clock ->
  (forall church events,
      validChurch church ->
      exists first rest,
        churchWeeks LocalTZA (Date_now clock) church events
        = events ++ first ++ rest /\
        (List.length first <= 1)%nat /\ List.length rest = 7%nat) /\
  exists ch,
    scrapeChurchEvents LocalTZA clock = Normal ch /\
    (14 <= List.length ch <= 16)%nat /\
    forall church, In church churches ->
                   (7 <= List.length (recordsOfChurch church ch) <= 8)%nat.
Proof.
  intros Hc.
  assert (Hs : validChurch southland) by (unfold validChurch; cbn; lia).
  assert (Hf : validChurch firstPresbyterian) by (unfold validChurch; cbn; lia).
  split.
  - intros church events Hv.
    destruct (eventsOfChurch_seven_sure clock church Hc Hv)
      as (first & rest & E & H).
    exists first, rest. split; [|exact H]. now rewrite churchWeeks_eq, E.
  - exists (churchEvents LocalTZA clock).
    split; [apply scrapeChurchEvents_eq|].
    destruct (eventsOfChurch_seven_sure clock southland Hc Hs)
      as (f1 & r1 & E1 & F1 & R1).
    destruct (eventsOfChurch_seven_sure clock firstPresbyterian Hc Hf)
      as (f2 & r2 & E2 & F2 & R2).
    pose proof (eventsOfChurch_title LocalTZA clock southland) as T1.
    pose proof (eventsOfChurch_title LocalTZA clock firstPresbyterian) as T2.
    assert (Hne : churchTitle firstPresbyterian <> churchTitle southland)
      by (vm_compute; discriminate).
    unfold churchEvents, churches. cbn [flat_map]. rewrite app_nil_r.
    split.
    + rewrite length_app, E1, E2, !length_app. lia.
    + assert (Own : forall church l,
                 Forall (fun e => title e = churchTitle church) l ->
                 recordsOfChurch church l = l).
      { intros church l Hl. apply filter_all_true. intros e He.
        rewrite Forall_forall in Hl. rewrite (Hl e He). apply String.eqb_refl. }
      intros church [<- | [<- | []]]; unfold recordsOfChurch;
        rewrite filter_app, length_app;
        fold (recordsOfChurch southland
                (eventsOfChurch LocalTZA clock southland));
        fold (recordsOfChurch southland
                (eventsOfChurch LocalTZA clock firstPresbyterian));
        fold (recordsOfChurch firstPresbyterian
                (eventsOfChurch LocalTZA clock southland));
        fold (recordsOfChurch firstPresbyterian
                (eventsOfChurch LocalTZA clock firstPresbyterian)).
      * rewrite (recordsOfChurch_other southland _ _ Hne T2), (Own _ _ T1).
        rewrite E1, length_app. cbn [List.length]. lia.
      * rewrite (recordsOfChurch_other firstPresbyterian _ _
                   (not_eq_sym Hne) T1), (Own _ _ T2).
        rewrite E2, length_app. cbn [List.length]. lia.
Qed.

(** X12. With the three clock readings well inside the range of time
    values, [fetchAllEvents] returns from 20 to 23 records: 3 or 4 markets,
    7 or 8 services of each church, 3 community events, and none of them
    removed as a duplicate. *)
Theorem aggregated_twenty_to_twenty_three (clock1 clock2 clock3 : Z) :
  clock_far_in_range clock1 -> clock_far_in_range clock2 ->
  clock_far_in_range clock3 ->
  exists out,
    fetchAllEvents LocalTZA clock1 clock2 clock3 = Normal out /\
    (20 <= List.length out <= 23)%nat.
Proof.
  intros H1 H2 H3.
  assert (R1 : clock_in_range clock1)
    by (unfold clock_in_range, clock_far_in_range in *; unfold_ms; lia).
  assert (R3 : clock_in_range clock3)
    by (unfold clock_in_range, clock_far_in_range in *; unfold_ms; lia).
  eexists. split; [apply fetchAllEvents_eq|].
  rewrite Array_sort_length.
  rewrite uniqueEventsOf_id by (now apply scraped_keys_NoDup).
  destruct (farmersMarketEvents_three_sure clock1 R1)
    as (first & e1 & e2 & e3 & -> & Hl & _).
  destruct (communityEventsAt_three clock3 R3) as (c1 & c2 & c3 & -> & _).
  assert (Hs : validChurch southland) by (unfold validChurch; cbn; lia).
  assert (Hf : validChurch firstPresbyterian) by (unfold validChurch; cbn; lia).
  destruct (eventsOfChurch_seven_sure clock2 southland H2 Hs)
    as (f1 & r1 & E1 & F1 & L1).
  destruct (eventsOfChurch_seven_sure clock2 firstPresbyterian H2 Hf)
    as (f2 & r2 & E2 & F2 & L2).
  unfold churchEvents, churches. cbn [flat_map]. rewrite app_nil_r, E1, E2.
  rewrite !length_app. cbn [List.length map]. lia.
Qed.

End Counts.

Lemma zoneSaturdaySwitch_shift_bound : tz_shift_bound zoneSaturdaySwitch.
Proof.
  intros t t' b b'. unfold zoneSaturdaySwitch.
  destruct b, b'; repeat destruct (_ <? _); unfold_ms; lia.
Qed.

Lemma lexington_monday_far_in_range : clock_far_in_range lexington_monday_9am.
Proof. unfold clock_far_in_range, lexington_monday_9am. unfold_ms. lia. Qed.

Lemma lexington_monday_in_range : clock_in_range lexington_monday_9am.
Proof. unfold clock_in_range, lexington_monday_9am. unfold_ms. lia. Qed.

(** The theorem in Lexington on Monday 4 March 2024: the yard sale, two
    weeks ahead, falls after the clock change. *)
Lemma one_offs_are_all_listed_witness :
  exists cleanup sale paint,
    scrapeYardSalesAndCommunityEvents zoneLexington lexington_monday_9am
    = Normal [communityEvent cleanupDay (Some cleanup);
              communityEvent yardSale (Some sale);
              communityEvent paintAndSip (Some paint)] /\
    lexington_monday_9am < paint /\ paint < cleanup /\ cleanup < sale.
Proof.
  exact (proj2 (one_offs_are_all_listed zoneLexington zoneLexington_shift_bound
                  lexington_monday_9am lexington_monday_in_range)).
Defined.

(** The theorem in a zone whose clock changes on the Saturday of the first
    market. *)
Lemma farmers_market_at_least_three_witness :
  exists l,
    scrapeLexingtonFarmersMarket zoneSaturdaySwitch lexington_monday_9am
    = Normal l /\
    (3 <= List.length l <= 4)%nat.
Proof.
  destruct (farmers_market_at_least_three zoneSaturdaySwitch
              zoneSaturdaySwitch_shift_bound lexington_monday_9am
              lexington_monday_in_range)
    as (first & e1 & e2 & e3 & l & H & _ & _ & Hl & _).
  exists l. split; assumption.
Defined.

Example farmers_market_saturday_switch :
  option_map (map startTime)
    (match scrapeLexingtonFarmersMarket zoneSaturdaySwitch
             lexington_monday_9am with
     | Normal l => Some l
     | Throw _ => None
     end)
  = Some [Some 1709985600000; Some 1710590400000;
          Some 1711195200000; Some 1711800000000].
Proof. vm_compute. reflexivity. Qed.

(** The theorem in Lexington, where the clock changes on a Sunday, the day
    of the first church. *)
Lemma churches_seven_or_eight_witness :
  exists ch,
    scrapeChurchEvents zoneLexington lexington_monday_9am = Normal ch /\
    (14 <= List.length ch <= 16)%nat.
Proof.
  destruct (churches_seven_or_eight zoneLexington zoneLexington_shift_bound
              lexington_monday_9am lexington_monday_far_in_range)
    as (_ & ch & H & Hl & _).
  exists ch. split; assumption.
Defined.

Lemma aggregated_twenty_to_twenty_three_witness :
  exists out,
    fetchAllEvents zoneLexington lexington_monday_9am lexington_monday_9am
                   lexington_monday_9am = Normal out /\
    (20 <= List.length out <= 23)%nat.
Proof.
  exact (aggregated_twenty_to_twenty_three zoneLexington
           zoneLexington_shift_bound lexington_monday_9am lexington_monday_9am
           lexington_monday_9am lexington_monday_far_in_range
           lexington_monday_far_in_range lexington_monday_far_in_range).
Defined.

(** ** Records of one title in the order of their dates *)

Lemma range_sorted n : StronglySorted Z.lt (range n).
Proof.
  unfold range. generalize 0%nat as s.
  induction n as [|n IH]; intros s; cbn; constructor; [apply IH|].
  apply Forall_forall. intros x Hx.
  apply in_map_iff in Hx as (k & <- & Hk). apply in_seq in Hk. lia.
Qed.

Lemma pushed_increasing {A} (R : A -> A -> Prop) (date : A -> JSDate)
    record now (items : list A) :
  (forall x d, startTime (record x d) = d) ->
  (forall x y ex ey, R x y -> date x = Some ex -> date y = Some ey -> ex < ey) ->
  StronglySorted R items ->
  StronglySorted timeLt (pushed date record now items).
Proof.
  intros Hrec Hinc. unfold pushed.
  induction 1 as [|x items Hs IH Hx]; cbn; [constructor|].
  destruct (Date_getTime (date x) >? Date_getTime now)%num eqn:Gx;
    [|exact IH].
  cbn [map]. constructor; [exact IH|].
  apply Forall_forall. intros e He.
  apply in_map_iff in He as (y & <- & Hy).
  apply filter_In in Hy as [Hy Gy].
  apply num_gt_spec in Gx as (ex & c & Ex & _).
  apply num_gt_spec in Gy as (ey & c' & Ey & _).
  unfold Date_getTime in Ex, Ey. rewrite Forall_forall in Hx.
  unfold timeLt. rewrite !Hrec, Ex, Ey.
  now apply (Hinc x y ex ey (Hx y Hy)).
Qed.

Section Chronology.

Variable LocalTZA : Z -> bool -> Z.
Hypothesis shift_bound : tz_shift_bound LocalTZA.

Lemma churchWeekDate_increasing eventDate w w' e e' :
  w < w' ->
  churchWeekDate LocalTZA eventDate w = Some e ->
  churchWeekDate LocalTZA eventDate w' = Some e' ->
  e < e'.
Proof.
  rewrite !churchWeekDate_closed. unfold addDays.
  destruct (Date_new eventDate) as [u|]; [|discriminate].
  intros Hw H H'. apply TimeClip_Some in H as [-> _].
  apply TimeClip_Some in H' as [-> _]. unfold UTC.
  pose proof (shift_bound (LocalTime LocalTZA u + w' * 7 * msPerDay)
                          (LocalTime LocalTZA u + w * 7 * msPerDay)
                          false false).
  unfold_ms. lia.
Qed.

(** X13. Each scraper lists the records of one title in the order of their
    dates, each later than the one before: the markets of the farmers
    market, the services of a church.  So does the list of a church with
    any day and hour. *)
Theorem weekly_records_in_order (clock : Z) :
  (forall church,
      StronglySorted timeLt (churchWeeks LocalTZA (Date_now clock) church [])) /\
  exists fm ch,
    scrapeLexingtonFarmersMarket LocalTZA clock = Normal fm /\
    scrapeChurchEvents LocalTZA clock = Normal ch /\
    StronglySorted timeLt fm /\
    forall church, StronglySorted timeLt (recordsOfChurch church ch).
Proof.
  assert (Hch : forall church,
             StronglySorted timeLt (eventsOfChurch LocalTZA clock church)).
  { intros church. apply (pushed_increasing Z.lt); [reflexivity | |].
    - intros x y ex ey Hxy. now apply churchWeekDate_increasing.
    - apply range_sorted. }
  split.
  - intros church. rewrite churchWeeks_eq. exact (Hch church).
  - exists (farmersMarketEvents LocalTZA clock), (churchEvents LocalTZA clock).
    split; [apply scrapeLexingtonFarmersMarket_eq|].
    split; [apply scrapeChurchEvents_eq|]. split.
    + apply (pushed_increasing Z.lt); [reflexivity | | apply range_sorted].
      intros x y ex ey Hxy. rewrite !farmersMarketDate_closed. intros Ex Ey.
      eapply (moved_dates_increase LocalTZA shift_bound); [|exact Ex|exact Ey].
      lia.
    + intros church. unfold churchEvents, churches. cbn [flat_map].
      rewrite app_nil_r. unfold recordsOfChurch. rewrite filter_app.
      pose proof (eventsOfChurch_title LocalTZA clock southland) as T1.
      pose proof (eventsOfChurch_title LocalTZA clock firstPresbyterian) as T2.
      assert (Hne : churchTitle firstPresbyterian <> churchTitle southland)
        by (vm_compute; discriminate).
      assert (Hfilter : forall l,
                 StronglySorted timeLt l ->
                 StronglySorted timeLt
                   (filter (fun e => String.eqb (title e) (churchTitle church))
                           l)).
      { induction 1 as [|x l Hs IH Hx]; cbn; [constructor|].
        destruct (String.eqb _ _); [|exact IH].
        constructor; [exact IH|].
        apply Forall_forall. intros y Hy. apply filter_In in Hy as [Hy _].
        rewrite Forall_forall in Hx. now apply Hx. }
      destruct (String.eqb_spec (churchTitle church) (churchTitle southland))
        as [Es | Ns].
      * fold (recordsOfChurch church
                (eventsOfChurch LocalTZA clock firstPresbyterian)).
        assert (Nf : churchTitle firstPresbyterian <> churchTitle church)
          by congruence.
        rewrite (recordsOfChurch_other church _ _ Nf T2).
        rewrite app_nil_r. apply Hfilter, Hch.
      * fold (recordsOfChurch church (eventsOfChurch LocalTZA clock southland)).
        rewrite (recordsOfChurch_other church _ _ (not_eq_sym Ns) T1).
        cbn [app]. apply Hfilter, Hch.
Qed.

End Chronology.

Lemma weekly_records_in_order_witness :
  exists fm,
    scrapeLexingtonFarmersMarket zoneLexington lexington_monday_9am
    = Normal fm /\
    StronglySorted timeLt fm.
Proof.
  destruct (weekly_records_in_order zoneLexington zoneLexington_shift_bound
              lexington_monday_9am) as (_ & fm & ch & H & _ & Hs & _).
  exists fm. split; assumption.
Defined.


(** ** The services of a church, in a zone quiet on the day of the church *)

Lemma Forall2_map_l {A B} (P : B -> A -> Prop) (f : A -> B) (l : list A) :
  (forall x, In x l -> P (f x) x) -> Forall2 P (map f l) l.
Proof.
  induction l as [|x l IH]; cbn; intros H; constructor.
  - apply H. now left.
  - apply IH. intros y Hy. apply H. now right.
Qed.

Section ChurchServices.

Variable LocalTZA : Z -> bool -> Z.
Hypothesis shift_bound : tz_shift_bound LocalTZA.

Local Abbreviation LT := (LocalTime LocalTZA).

(** The date of week [w] of a church: the hour of the church on its day,
    [w] weeks after the next such day; it is in the future unless it is
    today's and the hour has come. *)
Lemma churchWeekDate_quiet clock church w :
  clock_far_in_range clock -> validChurch church ->
  8 <= church_time church ->
  quiet_weekday LocalTZA (church_day church) ->
  0 <= w <= 7 ->
  exists e,
    churchWeekDate LocalTZA (churchFirstDate LocalTZA (Date_now clock) church) w
    = Some e /\
    LT e = MakeDate (Day (LT clock)
                     + daysUntil (church_day church) (WeekDay (LT clock))
                     + w * 7)
                    (MakeTime (church_time church) 0 0 0) /\
    (clock < e <-> ~ (w = 0 /\ churchServiceStarted LocalTZA clock church)).
Proof.
  intros Hfar [Hd Hh] H8 Hquiet Hw.
  assert (Hc : clock_in_range clock)
    by (unfold clock_in_range, clock_far_in_range in *; unfold_ms; lia).
  pose proof (WeekDay_range (LT clock)) as Hwd.
  pose proof (daysUntil_range (church_day church) (WeekDay (LT clock)) Hd Hwd)
    as [Hn Hmod].
  set (n := daysUntil (church_day church) (WeekDay (LT clock))) in *.
  set (h := church_time church) in *.
  assert (Hday : forall k, (Day (LT clock) + n + k * 7 + 4) mod 7
                           = church_day church).
  { intros k. revert Hmod. unfold WeekDay. zdiv. }
  destruct (move_to_quiet_day LocalTZA shift_bound clock n h Hc
              ltac:(lia) ltac:(lia))
    as (c & E & HE & HLE & HEc & Ha1 & Ha2 & H0).
  { apply Hquiet. specialize (Hday 0). rewrite <- Hday. f_equal. lia. }
  rewrite churchFirstDate_closed. fold n h. rewrite HE.
  rewrite churchWeekDate_closed. cbn [Date_new].
  pose proof (Day_TimeWithinDay (LT clock)) as HL.
  pose proof (TimeWithinDay_range (LT clock)) as HT.
  assert (EL : LT clock = clock + LocalTZA clock true) by reflexivity.
  unfold clock_far_in_range in Hfar.
  assert (RE : Z.abs E <= maxTime).
  { rewrite HEc, HLE. unfold MakeDate, MakeTime. unfold_ms. lia. }
  rewrite (TimeClip_in_range E RE). unfold addDays. fold (LT E).
  set (D := Day (LT clock) + n + w * 7).
  set (x := LT E + w * 7 * msPerDay).
  assert (Ex : x = MakeDate D (MakeTime h 0 0 0))
    by (unfold x, D; rewrite HLE; unfold MakeDate; lia).
  assert (Dx : Day x = D).
  { rewrite Ex. apply Day_MakeDate. unfold MakeTime. unfold_ms. lia. }
  destruct (Hquiet D (Hday w)) as (cw & Hlocal & Hutc & Hback).
  assert (Eu : UTC LocalTZA x = x - cw) by (unfold UTC; now rewrite Hlocal).
  assert (Bw1 : LocalTZA clock true - cw <= 8 * msPerHour)
    by (rewrite <- (Hlocal x Dx); apply shift_bound).
  assert (Bw2 : cw - LocalTZA clock true <= 8 * msPerHour)
    by (rewrite <- (Hlocal x Dx); apply shift_bound).
  assert (Rx : Z.abs (x - cw) <= maxTime).
  { rewrite Ex. unfold MakeDate, MakeTime, D. unfold_ms. lia. }
  assert (Lx : LT (x - cw) = x).
  { unfold LT, LocalTime. rewrite Hback; [lia|].
    now replace (x - cw + cw) with x by lia. }
  exists (x - cw). rewrite Eu.
  split; [now apply TimeClip_in_range|].
  split; [rewrite Lx; exact Ex|].
  rewrite Ex. unfold MakeDate, MakeTime, D. unfold churchServiceStarted.
  fold h. rewrite (HourFromTime_TimeWithinDay (LT clock) h).
  assert (Hn0 : n = 0 <-> WeekDay (LT clock) = church_day church).
  { revert Hmod. clear - Hn Hwd Hd. intros; zdiv. }
  destruct (Z.eq_dec (n + w * 7) 0) as [Hz | Hnz].
  - assert (En : n = 0) by lia. assert (w = 0) by lia. subst w.
    specialize (H0 En).
    assert (Ecw : LocalTZA clock true = cw).
    { apply Hutc. unfold D. fold (LT clock). lia. }
    assert (Wd : WeekDay (LT clock) = church_day church) by now apply Hn0.
    split.
    + intros Hlt (_ & _ & Hs). revert Hlt. unfold_ms. lia.
    + intros Hns.
      assert (Hs : ~ h * msPerHour <= TimeWithinDay (LT clock)) by tauto.
      revert Hs. unfold_ms. lia.
  - split.
    + intros _ (-> & Wd & _). apply Hn0 in Wd. lia.
    + intros _. revert Bw1 Bw2. unfold_ms. nia.
Qed.

(** X14. In a zone whose clock does not change on the day of a church
    (with bounded shifts, a clock sixty days inside the range of Date, and
    a service at 8 or later), the eight candidate dates of the church read,
    in local time, the hour of the church sharp, on the day of the church,
    one week apart from the next such day on.  The loop records them all,
    except the first one when the clock already reads the day of the
    church at its hour or later: then the seven others. *)
Theorem church_services_on_their_day clock church :
  clock_far_in_range clock -> validChurch church ->
  8 <= church_time church ->
  quiet_weekday LocalTZA (church_day church) ->
  exists dates,
    List.length dates = 8%nat /\
    Forall2 (fun e week =>
               LT e = MakeDate (Day (LT clock)
                                + daysUntil (church_day church)
                                            (WeekDay (LT clock))
                                + week * 7)
                               (MakeTime (church_time church) 0 0 0) /\
               WeekDay (LT e) = church_day church /\
               HourFromTime (LT e) = church_time church /\
               MinFromTime (LT e) = 0 /\ SecFromTime (LT e) = 0 /\
               msFromTime (LT e) = 0)
            dates (range 8) /\
    (churchServiceStarted LocalTZA clock church ->
     churchWeeks LocalTZA (Date_now clock) church []
     = map (fun e => churchEvent church (Some e)) (List.tl dates)) /\
    (~ churchServiceStarted LocalTZA clock church ->
     churchWeeks LocalTZA (Date_now clock) church []
     = map (fun e => churchEvent church (Some e)) dates).
Proof.
  intros Hfar Hv H8 Hquiet.
  set (date := churchWeekDate LocalTZA
                 (churchFirstDate LocalTZA (Date_now clock) church)).
  set (time := fun week => match date week with Some e => e | None => 0 end).
  assert (Hrange : forall week, In week (range 8) -> 0 <= week <= 7).
  { intros week Hin. apply in_map_iff in Hin as (k & <- & Hk).
    apply in_seq in Hk. lia. }
  assert (Hdate : forall week, In week (range 8) ->
                               date week = Some (time week)).
  { intros week Hin.
    destruct (churchWeekDate_quiet clock church week Hfar Hv H8 Hquiet
                (Hrange week Hin)) as (e & He & _).
    unfold time. fold date in He. now rewrite He. }
  assert (Hgt : forall week, In week (range 8) ->
            ((Date_getTime (date week) >? Date_getTime (Date_now clock))%num
             = true
             <-> ~ (week = 0 /\ churchServiceStarted LocalTZA clock church))).
  { intros week Hin.
    destruct (churchWeekDate_quiet clock church week Hfar Hv H8 Hquiet
                (Hrange week Hin)) as (e & He & _ & Hlt).
    fold date in He. rewrite He, num_gt_spec. unfold Date_getTime, Date_now.
    rewrite <- Hlt. split.
    - now intros (x & y & [= <-] & [= <-] & H).
    - intros H. now exists e, clock. }
  exists (map time (range 8)).
  split; [now rewrite length_map|].
  split.
  { apply Forall2_map_l. intros week Hin.
    destruct (churchWeekDate_quiet clock church week Hfar Hv H8 Hquiet
                (Hrange week Hin)) as (e & He & HL & _).
    fold date in He. unfold time. rewrite He, HL.
    destruct Hv as [Hd Hh].
    destruct (local_fields_MakeDate
                (Day (LT clock)
                 + daysUntil (church_day church) (WeekDay (LT clock))
                 + week * 7) (church_time church) Hh)
      as (_ & Hw & Hhour & Hmin & Hsec & Hms).
    repeat split; try assumption.
    rewrite Hw.
    pose proof (WeekDay_range (LT clock)) as Hwd.
    pose proof (daysUntil_range (church_day church) (WeekDay (LT clock))
                  Hd Hwd) as [_ Hmod].
    revert Hmod. unfold WeekDay. zdiv. }
  rewrite churchWeeks_eq. cbn [app]. unfold eventsOfChurch. fold date.
  change (range 8) with ([0] ++ map Z.of_nat (seq 1 7)).
  assert (Hin0 : In 0 (range 8)) by (now left).
  assert (Hrest : forall week, In week (map Z.of_nat (seq 1 7)) ->
                               In week (range 8) /\ week <> 0).
  { intros week Hin. split; [now right|].
    apply in_map_iff in Hin as (k & <- & Hk). apply in_seq in Hk. lia. }
  assert (Erest : pushed date (fun _ => churchEvent church) (Date_now clock)
                    (map Z.of_nat (seq 1 7))
                  = map (fun e => churchEvent church (Some e))
                        (map time (map Z.of_nat (seq 1 7)))).
  { rewrite pushed_all.
    - rewrite (map_map time). apply map_ext_in. intros week Hin.
      now rewrite (Hdate week (proj1 (Hrest week Hin))).
    - intros week Hin. destruct (Hrest week Hin) as [Hin' Hne].
      apply (Hgt week Hin'). now intros [-> _]. }
  rewrite pushed_app, Erest, map_app.
  split; intros Hs.
  - assert (B : (Date_getTime (date 0) >? Date_getTime (Date_now clock))%num
                = false).
    { apply not_true_is_false. intros B. apply (Hgt 0 Hin0) in B.
      apply B. now split. }
    unfold pushed at 1. cbn [filter map]. rewrite B. reflexivity.
  - assert (B : (Date_getTime (date 0) >? Date_getTime (Date_now clock))%num
                = true).
    { apply (Hgt 0 Hin0). now intros [_ H]. }
    unfold pushed at 1. cbn [filter map]. rewrite B.
    cbn [map app List.tl]. now rewrite (Hdate 0 Hin0).
Qed.

End ChurchServices.

(** Lexington changes its clock on a Sunday: the other days are quiet. *)
Lemma zoneLexington_quiet_weekday wd :
  wd <> 0 -> quiet_weekday zoneLexington wd.
Proof.
  intros Hwd D HD.
  exists (if D <? Day springForward then -5 * msPerHour else -4 * msPerHour).
  unfold LocalTime, zoneLexington, springForward, Day in *. unfold_ms.
  repeat split.
  - intros x Hx.
    destruct (Z.ltb_spec x (1710054000000 - 4 * 3600000)),
      (Z.ltb_spec D (1710054000000 / 86400000)); try reflexivity;
      exfalso; revert HD Hwd; zdiv.
  - intros u Hu.
    destruct (Z.ltb_spec u 1710054000000),
      (Z.ltb_spec D (1710054000000 / 86400000)); try reflexivity;
      exfalso; revert HD Hwd; zdiv.
  - intros u Hu.
    destruct (Z.ltb_spec u 1710054000000),
      (Z.ltb_spec D (1710054000000 / 86400000)); try reflexivity;
      exfalso; revert HD Hwd; zdiv.
Qed.

(** The theorem in Lexington on Monday 4 March 2024 at 09:00, for the
    Wednesday dinners: eight of them, the second one after the clock
    change. *)
Lemma church_services_on_their_day_witness :
  exists dates,
    List.length dates = 8%nat /\
    Forall (fun e => WeekDay (LocalTime zoneLexington e) = 3 /\
                     HourFromTime (LocalTime zoneLexington e) = 18) dates /\
    churchWeeks zoneLexington (Date_now lexington_monday_9am)
                firstPresbyterian []
    = map (fun e => churchEvent firstPresbyterian (Some e)) dates.
Proof.
  assert (Hv : validChurch firstPresbyterian) by (split; cbn; lia).
  assert (H8 : 8 <= church_time firstPresbyterian) by (cbn; lia).
  assert (Hq : quiet_weekday zoneLexington (church_day firstPresbyterian))
    by (apply zoneLexington_quiet_weekday; cbn; lia).
  destruct (church_services_on_their_day zoneLexington
              zoneLexington_shift_bound lexington_monday_9am
              firstPresbyterian lexington_monday_far_in_range Hv H8 Hq)
    as (dates & Hl & Hf & _ & Hall).
  exists dates. split; [exact Hl|]. split.
  - clear - Hf. induction Hf as [|e w l l' (_ & Hw & Hh & _) _ IH];
      constructor; auto.
  - apply Hall. intros [Hw _]. vm_compute in Hw. discriminate.
Defined.
